(** * M/M/1/K queueing simulation (mm1k.py): a shallow embedding

    The program is a SimPy discrete-event simulation.  Its two generator
    functions, [source] and [packet], are embedded as resumable frames (one
    constructor per suspension point), SimPy's [Environment] as a time-ordered
    event queue, and [simpy.Resource] as its [users] list and its FIFO
    [put_queue].  Python floats are the kernel's binary64 floats; the
    module-level random generator and [numpy.mean] are taken through the
    interface [Runtime]. *)

From Stdlib Require Import ZArith List Bool Lia Floats.
Import ListNotations.
Open Scope Z_scope.

#[local] Arguments Z.add : simpl never.
#[local] Arguments Z.sub : simpl never.
#[local] Arguments Z.mul : simpl never.
#[local] Arguments Z.max : simpl never.
#[local] Arguments Z.of_nat : simpl never.
#[local] Arguments Z.to_nat : simpl never.

(** ** The Python runtime the program calls into *)

(** [random.seed], [random.expovariate] and [numpy.mean].  [rng] is the state
    of the module-level generator of [random]; seeding replaces it, a draw
    advances it.  [random.expovariate(lambd)] returns
    [-log(1.0 - random()) / lambd]: it calls [random()] once, and then
    raises [ZeroDivisionError] when [lambd] is zero (0.0 or -0.0), which is
    the result [None] here, and only then.  [numpy.mean] of an empty list
    is NaN. *)
Class Runtime : Type := {
  rng : Type;
  seed : Z -> rng;
  expovariate : float -> rng -> option float * rng;
  expovariate_raises : forall lambd r,
    fst (expovariate lambd r) = None <-> (lambd =? 0)%float = true;
  np_mean : list float -> float;
  np_mean_nil : np_mean [] = nan
}.

(** Exceptions the program can raise: [1.0 / mean] with a zero mean and
    [random.expovariate] with a zero rate, [env.timeout] with a negative
    delay, [waiting.pop()] on an empty list. *)
Inductive exn : Type :=
| ZeroDivisionError
| ValueError
| IndexError.

(** ** Data *)

(** The arguments [source] receives from [run_simulation] and hands on to
    every [packet], fixed for a run. *)
Record params : Type := {
  mean_ia_time : float;
  mean_srv_time : float;
  system_capacity : Z;
  number : Z;
  trace : bool
}.

(** A suspended generator: the program point and the locals that are live
    there.  A packet is named by its index [i] (the source's ['Packet-%d' % i]);
    its request to the server is identified by the same index. *)
Inductive gen : Type :=
| GSource (i : Z)
    (* [source] about to run iteration [i]: at entry ([i = 0]) or suspended
       at line 32 of iteration [i - 1] *)
| GPacket (name : Z) (service_time : float)
    (* [packet] at entry *)
| GPacketReq (name : Z) (service_time arrv_time : float)
    (* [packet] suspended at line 47, [yield request] *)
| GPacketSrv (name : Z) (service_time arrv_time : float).
    (* [packet] suspended at line 52, [yield env.timeout(service_time)] *)

(** SimPy events, each with the process that resumes when it is processed. *)
Inductive event : Type :=
| Initialize (g : gen)      (* start of a process;        callbacks [_resume] *)
| Timeout (g : gen)         (* [env.timeout(d)], yielded; callbacks [_resume] *)
| Request (g : gen)         (* a granted [server.request()];
                               callbacks [_trigger_get; _resume] *)
| Release                   (* [server.release(request)]; callbacks [_trigger_put] *)
| Process (err : option exn).
                            (* a process that ended, normally or by an
                               exception; no callbacks *)

(** The lines the program's print statements (lines 40, 44, 51 and 55, all
    commented out in the source) would write.  The log is ghost state: nothing
    reads it. *)
Inductive obs : Type :=
| Arrived (t : float) (name : Z) (n : Z)
| Left (t : float) (name : Z) (n : Z)
| Waited (t : float) (name : Z) (wait_time : float)
| Served (t : float) (name : Z) (service_time : float) (n : Z).

(** A queue entry's key, SimPy's [(time, priority, eid)]. *)
Definition key : Type := (float * Z * Z)%type.

Definition URGENT : Z := 0.
Definition NORMAL : Z := 1.

(** Python's [<] on the key tuples: the first component that differs decides. *)
Definition key_lt (a b : key) : bool :=
  let '(t1, p1, e1) := a in
  let '(t2, p2, e2) := b in
  if (t1 =? t2)%float then
    if p1 =? p2 then e1 <? e2 else p1 <? p2
  else (t1 <? t2)%float.

(** [heappush]: the queue is kept sorted by key, so that its head is the
    least entry, which is what [heappop] returns.  (The keys of a run are
    totally ordered: no two have the same [eid].  The theorems below that
    quantify over the runtime hold whatever order pending events are
    processed in.) *)
Fixpoint heappush (k : key) (e : event) (q : list (key * event))
  : list (key * event) :=
  match q with
  | [] => [(k, e)]
  | (k', e') :: q' =>
      if key_lt k k' then (k, e) :: q else (k', e') :: heappush k e q'
  end.

Section Simulation.

Context {R : Runtime}.

(** Everything a run touches: the generator of [random], the environment
    ([now], the queue, the event counter), the server ([users], [put_queue])
    and the three lists of [run_simulation]. *)
Record world : Type := {
  random : rng;
  now : float;
  queue : list (key * event);
  eid : Z;
  users : list Z;
  put_queue : list gen;
  wait_times : list float;
  waiting : list Z;
  loss : list Z;
  log : list obs
}.

Definition set_random (r : rng) (w : world) : world :=
  {| random := r; now := now w; queue := queue w; eid := eid w;
     users := users w; put_queue := put_queue w; wait_times := wait_times w;
     waiting := waiting w; loss := loss w; log := log w |}.

Definition set_now (t : float) (w : world) : world :=
  {| random := random w; now := t; queue := queue w; eid := eid w;
     users := users w; put_queue := put_queue w; wait_times := wait_times w;
     waiting := waiting w; loss := loss w; log := log w |}.

Definition set_queue (q : list (key * event)) (n : Z) (w : world) : world :=
  {| random := random w; now := now w; queue := q; eid := n;
     users := users w; put_queue := put_queue w; wait_times := wait_times w;
     waiting := waiting w; loss := loss w; log := log w |}.

Definition set_server (u : list Z) (pq : list gen) (w : world) : world :=
  {| random := random w; now := now w; queue := queue w; eid := eid w;
     users := u; put_queue := pq; wait_times := wait_times w;
     waiting := waiting w; loss := loss w; log := log w |}.

Definition set_wait_times (l : list float) (w : world) : world :=
  {| random := random w; now := now w; queue := queue w; eid := eid w;
     users := users w; put_queue := put_queue w; wait_times := l;
     waiting := waiting w; loss := loss w; log := log w |}.

Definition set_waiting (l : list Z) (w : world) : world :=
  {| random := random w; now := now w; queue := queue w; eid := eid w;
     users := users w; put_queue := put_queue w; wait_times := wait_times w;
     waiting := l; loss := loss w; log := log w |}.

Definition set_loss (l : list Z) (w : world) : world :=
  {| random := random w; now := now w; queue := queue w; eid := eid w;
     users := users w; put_queue := put_queue w; wait_times := wait_times w;
     waiting := waiting w; loss := l; log := log w |}.

Definition say (o : obs) (w : world) : world :=
  {| random := random w; now := now w; queue := queue w; eid := eid w;
     users := users w; put_queue := put_queue w; wait_times := wait_times w;
     waiting := waiting w; loss := loss w; log := log w ++ [o] |}.

(** ** SimPy's environment and resource *)

(** [Environment.schedule(event, priority, delay)]. *)
Definition schedule (e : event) (priority : Z) (delay : float) (w : world)
  : world :=
  set_queue (heappush ((now w + delay)%float, priority, eid w) e (queue w))
            (eid w + 1) w.

(** [env.process(generator)]: its [Initialize] event is scheduled urgently. *)
Definition process (g : gen) (w : world) : world :=
  schedule (Initialize g) URGENT 0%float w.

(** [yield env.timeout(delay)] by the generator that continues as [g]:
    [ValueError] on a negative delay, before anything is scheduled. *)
Definition timeout (delay : float) (g : gen) (w : world) : exn + world :=
  if (delay <? 0)%float then inl ValueError
  else inr (schedule (Timeout g) NORMAL delay w).

(** The end of a process: [StopIteration], or an exception that escapes the
    generator; either way the process event is scheduled. *)
Definition finish (w : world) : world :=
  schedule (Process None) NORMAL 0%float w.

Definition fail (x : exn) (w : world) : world :=
  schedule (Process (Some x)) NORMAL 0%float w.

Definition request_of (g : gen) : Z :=
  match g with
  | GSource i => i
  | GPacket name _ => name
  | GPacketReq name _ _ => name
  | GPacketSrv name _ _ => name
  end.

(** [BaseResource._trigger_put] with [Resource._do_put], capacity 1:
    [_do_put] returns [None], so the loop stops after the request at the head
    of [put_queue]; it is granted (added to [users], triggered and so
    scheduled, and removed from [put_queue]) when the server is free. *)
Definition trigger_put (w : world) : world :=
  match put_queue w with
  | [] => w
  | r :: rest =>
      if (Z.of_nat (length (users w)) <? 1)
      then schedule (Request r) NORMAL 0%float
             (set_server (users w ++ [request_of r]) rest w)
      else w
  end.

(** [list.remove(x)]: the first occurrence; [Resource._do_get] ignores the
    [ValueError] of an absent one. *)
Fixpoint list_remove (x : Z) (l : list Z) : list Z :=
  match l with
  | [] => []
  | y :: l' => if x =? y then l' else y :: list_remove x l'
  end.

(** [server.request()] followed by [yield request], by the packet that
    continues as [g]: the request joins [put_queue] and [_trigger_put] runs. *)
Definition request (g : gen) (w : world) : world :=
  trigger_put (set_server (users w) (put_queue w ++ [g]) w).

(** [server.release(request)], what leaving the [with] block does:
    [_do_get] removes the request from [users] and triggers the release
    event at once. *)
Definition release (name : Z) (w : world) : world :=
  schedule Release NORMAL 0%float
    (set_server (list_remove name (users w)) (put_queue w) w).

(** ** The generators of mm1k.py *)

Variable p : params.

(** [source], lines 27-32: one iteration of the loop, up to its [yield].
    Each of the lines 28 and 29 can raise [ZeroDivisionError] twice: in
    [1.0 / mean], for a mean of zero, before the generator is touched; and
    in [random.expovariate], for a rate [1.0 / mean] of zero (an infinite
    mean), after the generator has advanced. *)
Definition source (i : Z) (w : world) : world :=
  if i <? number p then
    if (mean_ia_time p =? 0)%float then fail ZeroDivisionError w else
    match expovariate (1 / mean_ia_time p)%float (random w) with
    | (None, r1) => fail ZeroDivisionError (set_random r1 w)
    | (Some ia_time, r1) =>
        let w := set_random r1 w in
        if (mean_srv_time p =? 0)%float then fail ZeroDivisionError w else
        match expovariate (1 / mean_srv_time p)%float (random w) with
        | (None, r2) => fail ZeroDivisionError (set_random r2 w)
        | (Some srv_time, r2) =>
            let w := set_random r2 w in
            let w := process (GPacket i srv_time) w in
            match timeout ia_time (GSource (i + 1)) w with
            | inl x => fail x w
            | inr w' => w'
            end
        end
    end
  else finish w.

(** [packet], lines 37-47: from entry to the drop or to [yield request]. *)
Definition packet (name : Z) (service_time : float) (w : world) : world :=
  let arrv_time := now w in
  let w := set_waiting (waiting w ++ [1]) w in
  if trace p then
    let w := say (Arrived arrv_time name (Z.of_nat (length (waiting w)))) w in
    if Z.of_nat (length (waiting w)) >? system_capacity p then
      let w := set_waiting (removelast (waiting w)) w in
      let w := set_loss (loss w ++ [1]) w in
      let w := say (Left arrv_time name (Z.of_nat (length (waiting w)))) w in
      finish w
    else
      request (GPacketReq name service_time arrv_time) w
  else finish w.

(** [packet], lines 48-52: from the grant to [yield env.timeout]; an
    exception leaves the [with] block, which releases the server. *)
Definition packet_granted (name : Z) (service_time arrv_time : float)
  (w : world) : world :=
  let wait_time := (now w - arrv_time)%float in
  let w := set_wait_times (wait_times w ++ [wait_time]) w in
  let w := say (Waited (now w) name wait_time) w in
  match timeout service_time (GPacketSrv name service_time arrv_time) w with
  | inl x => fail x (release name w)
  | inr w' => w'
  end.

(** [packet], lines 53-55 and the end of the [with] block. *)
Definition packet_served (name : Z) (service_time arrv_time : float)
  (w : world) : world :=
  if trace p then
    match waiting w with
    | [] => fail IndexError (release name w)
    | _ :: _ =>
        let w := set_waiting (removelast (waiting w)) w in
        let w := say (Served (now w) name service_time
                        (Z.of_nat (length (waiting w)))) w in
        finish (release name w)
    end
  else finish (release name w).

(** [Process._resume]: run the generator from where it is suspended. *)
Definition resume (g : gen) (w : world) : world :=
  match g with
  | GSource i => source i w
  | GPacket name service_time => packet name service_time w
  | GPacketReq name service_time arrv_time =>
      packet_granted name service_time arrv_time w
  | GPacketSrv name service_time arrv_time =>
      packet_served name service_time arrv_time w
  end.

(** The callbacks of an event.  [_trigger_get] of a granted request finds
    [get_queue] empty (a release is triggered when it is made) and does
    nothing. *)
Definition callbacks (e : event) (w : world) : world :=
  match e with
  | Initialize g => resume g w
  | Timeout g => resume g w
  | Request g => resume g w
  | Release => trigger_put w
  | Process _ => w
  end.

(** How a step ends: [EmptySchedule] is raised, an exception of a failed
    process is raised, or the step returns. *)
Inductive stepped : Type :=
| EmptySchedule
| Raise (x : exn) (w : world)
| Next (w : world).

(** [Environment.step]: pop the least entry, advance the clock, run the
    callbacks; a failed process raises its exception. *)
Definition step (w : world) : stepped :=
  match queue w with
  | [] => EmptySchedule
  | ((t, _, _), e) :: q =>
      let w := set_now t (set_queue q (eid w) w) in
      let w := callbacks e w in
      match e with
      | Process (Some x) => Raise x w
      | _ => Next w
      end
  end.

(** [Environment.run()]: step until the schedule is empty.  [None] when
    [fuel] steps were not enough. *)
Fixpoint run (fuel : nat) (w : world) : option (option exn * world) :=
  match fuel with
  | O => None
  | S fuel' =>
      match step w with
      | EmptySchedule => Some (None, w)
      | Raise x w' => Some (Some x, w')
      | Next w' => run fuel' w'
      end
  end.

(** The states a run passes through: the one after [n] steps. *)
Fixpoint after (n : nat) (w : world) : option world :=
  match n with
  | O => Some w
  | S n' =>
      match step w with
      | Next w' => after n' w'
      | _ => None
      end
  end.

(** The state [run_simulation] builds in lines 60-67: the generator is
    reseeded whatever state [g] it was in, the environment, the server and
    the three lists are new, and the source is started. *)
Definition start (random_seed : Z) (g : rng) : world :=
  let w := {| random := g; now := 0%float; queue := []; eid := 0;
              users := []; put_queue := []; wait_times := []; waiting := [];
              loss := []; log := [] |} in
  let w := set_random (seed random_seed) w in
  process (GSource 0) w.

(** What a call gives back: the returned pair or the exception raised. *)
Inductive outcome : Type :=
| Returned (mean_wait : float) (losses : Z)
| Raised (x : exn).

Definition outcome_of (r : option exn * world) : outcome :=
  match fst r with
  | Some x => Raised x
  | None =>
      Returned (np_mean (wait_times (snd r))) (Z.of_nat (length (loss (snd r))))
  end.

End Simulation.

(** [run_simulation], called when the module-level generator is in state
    [g]: the outcome and the generator's state afterwards ([None] when
    [env.run()] needs more than [fuel] steps). *)
Definition run_simulation {R : Runtime} (fuel : nat)
  (mean_ia_time mean_srv_time : float) (system_capacity num_packets : Z)
  (random_seed : Z) (trace : bool) (g : rng) : option (outcome * rng) :=
  let p := {| mean_ia_time := mean_ia_time; mean_srv_time := mean_srv_time;
              system_capacity := system_capacity; number := num_packets;
              trace := trace |} in
  match run p fuel (start random_seed g) with
  | None => None
  | Some r => Some (outcome_of r, random (snd r))
  end.

(** ** Termination of [Environment.run]

    Every pending event and every waiting request is given a weight that
    bounds the number of events it can still cause; a step lowers the sum,
    whatever the state. *)

Section Termination.

Context {R : Runtime}.
Variable p : params.

Fixpoint qsum (f : event -> Z) (q : list (key * event)) : Z :=
  match q with
  | [] => 0
  | (_, e) :: q' => f e + qsum f q'
  end.

Definition gen_weight (g : gen) : Z :=
  match g with
  | GSource i => 2 + 7 * Z.max 0 (number p - i)
  | GPacket _ _ => 6
  | GPacketReq _ _ _ => 4
  | GPacketSrv _ _ _ => 3
  end.

Definition weight (e : event) : Z :=
  match e with
  | Initialize g | Timeout g | Request g => gen_weight g
  | Release | Process _ => 1
  end.

Fixpoint line_weight (l : list gen) : Z :=
  match l with
  | [] => 0
  | g :: l' => 1 + gen_weight g + line_weight l'
  end.

Definition potential (w : world) : Z :=
  qsum weight (queue w) + line_weight (put_queue w).

Lemma qsum_heappush (f : event -> Z) (k : key) (e : event) q :
  qsum f (heappush k e q) = f e + qsum f q.
Proof.
  induction q as [|[k' e'] q IH]; simpl; [reflexivity|].
  destruct (key_lt k k'); simpl; lia.
Qed.

Lemma gen_weight_pos g : 0 < gen_weight g.
Proof. destruct g; cbn [gen_weight]; lia. Qed.

Lemma weight_pos e : 0 < weight e.
Proof. destruct e; cbn [weight]; auto using gen_weight_pos; lia. Qed.

Lemma qsum_weight_nonneg q : 0 <= qsum weight q.
Proof.
  induction q as [|[k e] q IH]; simpl; [lia|].
  pose proof (weight_pos e); lia.
Qed.

Lemma line_weight_nonneg l : 0 <= line_weight l.
Proof.
  induction l as [|g l IH]; simpl; [lia|].
  pose proof (gen_weight_pos g); lia.
Qed.

Lemma line_weight_app l g :
  line_weight (l ++ [g]) = line_weight l + 1 + gen_weight g.
Proof. induction l as [|g' l IH]; simpl; lia. Qed.

Lemma potential_nonneg w : 0 <= potential w.
Proof.
  unfold potential.
  pose proof (qsum_weight_nonneg (queue w)).
  pose proof (line_weight_nonneg (put_queue w)). lia.
Qed.

Lemma potential_schedule e pr d w :
  potential (schedule e pr d w) = weight e + potential w.
Proof. unfold potential, schedule; simpl. rewrite qsum_heappush. lia. Qed.

Lemma potential_trigger_put w : potential (trigger_put w) <= potential w.
Proof.
  unfold trigger_put.
  destruct (put_queue w) as [|r rest] eqn:Hq; [lia|].
  destruct (Z.of_nat (length (users w)) <? 1); [|lia].
  rewrite potential_schedule. unfold potential; simpl. rewrite Hq; simpl. lia.
Qed.

Lemma potential_request g w :
  potential (request g w) <= 1 + gen_weight g + potential w.
Proof.
  unfold request.
  etransitivity; [apply potential_trigger_put|].
  unfold potential; simpl. rewrite line_weight_app. lia.
Qed.

Lemma potential_release x w : potential (release x w) = 1 + potential w.
Proof. unfold release. now rewrite potential_schedule. Qed.

Lemma potential_finish w : potential (finish w) = 1 + potential w.
Proof. unfold finish. now rewrite potential_schedule. Qed.

Lemma potential_fail x w : potential (fail x w) = 1 + potential w.
Proof. unfold fail. now rewrite potential_schedule. Qed.

Lemma potential_source i w :
  potential (source p i w) < gen_weight (GSource i) + potential w.
Proof.
  unfold source. cbn [gen_weight].
  destruct (Z.ltb_spec i (number p)) as [Hi|Hi].
  2:{ rewrite potential_finish. lia. }
  destruct (mean_ia_time p =? 0)%float.
  { rewrite potential_fail. lia. }
  destruct (expovariate _ (random w)) as [[ia|] r1].
  2:{ rewrite potential_fail. unfold potential; simpl. lia. }
  destruct (mean_srv_time p =? 0)%float.
  { rewrite potential_fail. unfold potential; simpl. lia. }
  simpl random.
  destruct (expovariate _ r1) as [[srv|] r2].
  2:{ rewrite potential_fail. unfold potential; simpl. lia. }
  unfold timeout. destruct (ia <? 0)%float.
  - rewrite potential_fail. unfold process. rewrite potential_schedule.
    unfold potential; simpl. lia.
  - rewrite potential_schedule. unfold process. rewrite potential_schedule.
    unfold potential; simpl. lia.
Qed.

Lemma potential_packet x s w :
  potential (packet p x s w) < gen_weight (GPacket x s) + potential w.
Proof.
  unfold packet. cbn [gen_weight].
  destruct (trace p).
  2:{ rewrite potential_finish. unfold potential; simpl. lia. }
  match goal with |- context [if ?c then _ else _] => destruct c end.
  - rewrite potential_finish. unfold potential; simpl. lia.
  - match goal with |- potential (request ?g ?w') < _ =>
      pose proof (potential_request g w') as H end.
    cbn [gen_weight] in H. unfold potential in *; simpl in *. lia.
Qed.

Lemma potential_packet_granted x s a w :
  potential (packet_granted x s a w)
  < gen_weight (GPacketReq x s a) + potential w.
Proof.
  unfold packet_granted, timeout. cbn [gen_weight].
  destruct (s <? 0)%float.
  - rewrite potential_fail, potential_release. unfold potential; simpl. lia.
  - rewrite potential_schedule. unfold potential; simpl. lia.
Qed.

Lemma potential_packet_served x s a w :
  potential (packet_served p x s a w)
  < gen_weight (GPacketSrv x s a) + potential w.
Proof.
  unfold packet_served. cbn [gen_weight].
  destruct (trace p).
  - destruct (waiting w) eqn:Hw.
    + rewrite potential_fail, potential_release. lia.
    + rewrite potential_finish, potential_release. unfold potential; simpl. lia.
  - rewrite potential_finish, potential_release. lia.
Qed.

Lemma potential_resume g w :
  potential (resume p g w) < gen_weight g + potential w.
Proof.
  destruct g; simpl resume.
  - apply potential_source.
  - apply potential_packet.
  - apply potential_packet_granted.
  - apply potential_packet_served.
Qed.

Lemma potential_callbacks e w :
  potential (callbacks p e w) < weight e + potential w.
Proof.
  destruct e; simpl; try apply potential_resume.
  - pose proof (potential_trigger_put w). lia.
  - lia.
Qed.

Lemma potential_step w :
  match step p w with
  | EmptySchedule => queue w = []
  | Raise _ w' | Next w' => potential w' < potential w
  end.
Proof.
  unfold step. destruct (queue w) as [|[[[t pr] n] e] q] eqn:Hq; [reflexivity|].
  match goal with |- context [callbacks p e ?w'] =>
    pose proof (potential_callbacks e w') as H;
    assert (Hw : potential w = weight e + potential w')
      by (unfold potential; simpl; rewrite Hq; simpl; lia)
  end.
  destruct e as [| | | |[x|]]; lia.
Qed.

(** The run ends within [potential w] steps. *)
Lemma run_terminates fuel w :
  potential w < Z.of_nat fuel -> exists r, run p fuel w = Some r.
Proof.
  revert w. induction fuel as [|fuel IH]; intros w Hf.
  - pose proof (potential_nonneg w). lia.
  - simpl. pose proof (potential_step w) as Hs.
    destruct (step p w) as [|x w'|w']; eauto.
    apply IH. lia.
Qed.

Lemma potential_start s g : potential (start s g) = 2 + 7 * Z.max 0 (number p).
Proof.
  unfold start, process. rewrite potential_schedule.
  unfold potential; simpl. rewrite Z.sub_0_r. lia.
Qed.

End Termination.

(** ** Counting customers *)

Definition ind (b : bool) : Z := if b then 1 else 0.

(** How many of the names [l] satisfy [sel]. *)
Fixpoint tally (sel : Z -> bool) (l : list Z) : Z :=
  match l with
  | [] => 0
  | x :: l' => ind (sel x) + tally sel l'
  end.

(** How many of the [n] names from [i] on satisfy [sel]. *)
Fixpoint span (sel : Z -> bool) (i : Z) (n : nat) : Z :=
  match n with
  | O => 0
  | S n' => ind (sel i) + span sel (i + 1) n'
  end.

Definition everyone : Z -> bool := fun _ => true.

(** The customers the log reports as arrived, dropped ("left" at line 44),
    granted the server ("waited"), and departed ("served and left"). *)
Definition arrived (l : list obs) : list Z :=
  flat_map (fun o => match o with Arrived _ x _ => [x] | _ => [] end) l.

Definition dropped (l : list obs) : list Z :=
  flat_map (fun o => match o with Left _ x _ => [x] | _ => [] end) l.

Definition granted (l : list obs) : list Z :=
  flat_map (fun o => match o with Waited _ x _ => [x] | _ => [] end) l.

Definition departed (l : list obs) : list Z :=
  flat_map (fun o => match o with Served _ x _ _ => [x] | _ => [] end) l.

(** The wait times the log reports, in order. *)
Definition waits (l : list obs) : list float :=
  flat_map (fun o => match o with Waited _ _ d => [d] | _ => [] end) l.

(** The occupancy an entry of the log reports, if it reports one. *)
Definition occupancy (o : obs) : option Z :=
  match o with
  | Arrived _ _ n | Left _ _ n | Served _ _ _ n => Some n
  | Waited _ _ _ => None
  end.

Definition frame (e : event) : option gen :=
  match e with
  | Initialize g | Timeout g | Request g => Some g
  | Release | Process _ => None
  end.

Lemma ind_nonneg b : 0 <= ind b <= 1.
Proof. destruct b; simpl; lia. Qed.

Lemma tally_app sel l l' : tally sel (l ++ l') = tally sel l + tally sel l'.
Proof. induction l as [|x l IH]; simpl; lia. Qed.

Lemma tally_nonneg sel l : 0 <= tally sel l.
Proof.
  induction l as [|x l IH]; simpl; [lia|].
  pose proof (ind_nonneg (sel x)); lia.
Qed.

Lemma tally_everyone l : tally everyone l = Z.of_nat (length l).
Proof. induction l as [|x l IH]; simpl; unfold ind, everyone in *; lia. Qed.

Lemma tally_in x l : 0 < tally (Z.eqb x) l -> In x l.
Proof.
  induction l as [|y l IH]; simpl; [lia|].
  destruct (Z.eqb_spec x y); simpl; [auto|].
  intros H. right. apply IH. unfold ind in H. lia.
Qed.

Lemma tally_zero l : tally everyone l = 0 -> l = [].
Proof. rewrite tally_everyone. destruct l; simpl; [reflexivity|lia]. Qed.

Lemma tally_list_remove sel x l :
  In x l -> tally sel (list_remove x l) = tally sel l - ind (sel x).
Proof.
  induction l as [|y l IH]; simpl; [tauto|].
  destruct (Z.eqb_spec x y) as [->|Hne]; [lia|].
  intros [->|Hin]; [congruence|]. simpl. rewrite IH by assumption. lia.
Qed.

Lemma length_list_remove x l : (length (list_remove x l) <= length l)%nat.
Proof.
  induction l as [|y l IH]; simpl; [lia|].
  destruct (x =? y); simpl; lia.
Qed.

Lemma span_nonneg sel i n : 0 <= span sel i n.
Proof.
  revert i. induction n as [|n IH]; intros i; simpl; [lia|].
  pose proof (ind_nonneg (sel i)). pose proof (IH (i + 1)). lia.
Qed.

Lemma span_next sel i N :
  i < N ->
  span sel i (Z.to_nat (N - i)) = ind (sel i) + span sel (i + 1) (Z.to_nat (N - (i + 1))).
Proof.
  intros Hi. replace (Z.to_nat (N - i)) with (S (Z.to_nat (N - (i + 1)))) by lia.
  reflexivity.
Qed.

Lemma span_done sel i N : N <= i -> span sel i (Z.to_nat (N - i)) = 0.
Proof. intros Hi. replace (Z.to_nat (N - i)) with O by lia. reflexivity. Qed.

Lemma span_everyone i n : span everyone i n = Z.of_nat n.
Proof.
  revert i. induction n as [|n IH]; intros i; simpl; [lia|].
  rewrite IH. unfold ind, everyone. lia.
Qed.

Lemma span_one x i n :
  span (Z.eqb x) i n = ind ((i <=? x) && (x <? i + Z.of_nat n)).
Proof.
  revert i. induction n as [|n IH]; intros i; simpl.
  - unfold ind. destruct (Z.leb_spec i x), (Z.ltb_spec x (i + Z.of_nat 0)); simpl; lia.
  - rewrite IH. unfold ind.
    destruct (Z.eqb_spec x i), (Z.leb_spec i x), (Z.leb_spec (i + 1) x),
      (Z.ltb_spec x (i + 1 + Z.of_nat n)), (Z.ltb_spec x (i + Z.of_nat (S n)));
      simpl; lia.
Qed.

Lemma qsum_nonneg f q : (forall e, 0 <= f e) -> 0 <= qsum f q.
Proof.
  intros Hf. induction q as [|[k e] q IH]; simpl; [lia|].
  pose proof (Hf e). lia.
Qed.

Lemma Forall_heappush (P : key * event -> Prop) k e q :
  P (k, e) -> Forall P q -> Forall P (heappush k e q).
Proof.
  intros He Hq. induction Hq as [|[k' e'] q Hx Hq IH]; simpl.
  - constructor; auto.
  - destruct (key_lt k k'); repeat constructor; auto.
Qed.

Lemma length_removelast_cons {A} (a : A) l :
  Z.of_nat (length (removelast (a :: l))) = Z.of_nat (length (a :: l)) - 1.
Proof.
  destruct (exists_last (l := a :: l)) as [l' [b Hl]]; [discriminate|].
  rewrite Hl, removelast_last, length_app. simpl. lia.
Qed.

(** ** The invariant of a traced run *)

Section Invariant.

Context {R : Runtime}.
Variable p : params.

#[local] Abbreviation K := (system_capacity p).
#[local] Abbreviation N := (number p).

(** The draws the source still has to make, for [n] customers from
    generator state [r] on, all return (no rate is zero), and the variates
    are not negative (as exponential variates of a positive rate are). *)
Fixpoint draws_ok (n : nat) (r : rng) : bool :=
  match n with
  | O => true
  | S n' =>
      match expovariate (1 / mean_ia_time p)%float r with
      | (Some ia_time, r1) =>
          match expovariate (1 / mean_srv_time p)%float r1 with
          | (Some srv_time, r2) =>
              negb (ia_time <? 0)%float && negb (srv_time <? 0)%float
              && draws_ok n' r2
          | (None, _) => false
          end
      | (None, _) => false
      end
  end.

(** Pending events by the stage of the customer they resume. *)
Definition starting (sel : Z -> bool) (e : event) : Z :=
  match frame e with Some (GPacket x _) => ind (sel x) | _ => 0 end.

Definition holding (sel : Z -> bool) (e : event) : Z :=
  match frame e with Some (GPacketReq x _ _) => ind (sel x) | _ => 0 end.

Definition serving (sel : Z -> bool) (e : event) : Z :=
  match frame e with Some (GPacketSrv x _ _) => ind (sel x) | _ => 0 end.

Definition unborn (sel : Z -> bool) (e : event) : Z :=
  match frame e with
  | Some (GSource i) => span sel i (Z.to_nat (N - i))
  | _ => 0
  end.

Definition sourcing (e : event) : Z :=
  match frame e with Some (GSource _) => 1 | _ => 0 end.

Definition releasing (e : event) : Z :=
  match e with Release => 1 | _ => 0 end.

Definition failed (e : event) : Z :=
  match e with Process (Some _) => 1 | _ => 0 end.

(** A customer past the admission check arrived at the time its frame
    remembers, at an occupancy within the capacity. *)
Definition accepted (l : list obs) (x : Z) (s a : float) : Prop :=
  (s <? 0)%float = false /\
  exists n, In (Arrived a x n) l /\ n <= K.

Definition gen_ok (r : rng) (l : list obs) (g : gen) : Prop :=
  match g with
  | GSource i => draws_ok (Z.to_nat (N - i)) r = true
  | GPacket _ s => (s <? 0)%float = false
  | GPacketReq x s a | GPacketSrv x s a => accepted l x s a
  end.

Definition event_ok (r : rng) (l : list obs) (ke : key * event) : Prop :=
  match frame (snd ke) with
  | Some g => gen_ok r l g
  | None => True
  end.

Definition line_ok (l : list obs) (g : gen) : Prop :=
  match g with
  | GPacketReq x s a => accepted l x s a
  | _ => False
  end.

Definition entry_ok (l : list obs) (o : obs) : Prop :=
  match o with
  | Arrived t x n => 1 <= n <= Z.max 0 K + 1
  | Left t x n => In (Arrived t x (n + 1)) l /\ K < n + 1 /\ 0 <= n <= Z.max 0 K
  | Waited t x d =>
      exists a n, In (Arrived a x n) l /\ n <= K /\ d = (t - a)%float
  | Served t x s n => 0 <= n <= Z.max 0 K
  end.

(** An arrival that finds the system full is followed at once by its own
    departure, one customer fewer in the system. *)
Fixpoint drops_paired (l : list obs) : bool :=
  match l with
  | [] => true
  | Arrived _ x n :: rest =>
      if n >? K then
        match rest with
        | Left _ x' n' :: rest' => (x' =? x) && (n' =? n - 1) && drops_paired rest'
        | _ => false
        end
      else drops_paired rest
  | _ :: rest => drops_paired rest
  end.

Record Core (w : world) : Prop := {
  inv_born : forall sel,
    qsum (starting sel) (queue w) + tally sel (arrived (log w))
    + qsum (unborn sel) (queue w) = span sel 0 (Z.to_nat N);
  inv_life : forall sel,
    tally sel (arrived (log w))
    = tally sel (dropped (log w)) + tally sel (map request_of (put_queue w))
      + qsum (holding sel) (queue w) + qsum (serving sel) (queue w)
      + tally sel (departed (log w));
  inv_wait : forall sel,
    tally sel (granted (log w))
    = qsum (serving sel) (queue w) + tally sel (departed (log w));
  inv_loss : Z.of_nat (length (loss w)) = tally everyone (dropped (log w));
  inv_occ :
    Z.of_nat (length (waiting w))
    = Z.of_nat (length (put_queue w)) + qsum (holding everyone) (queue w)
      + qsum (serving everyone) (queue w);
  inv_times : wait_times w = waits (log w);
  inv_users : forall sel,
    tally sel (users w)
    = qsum (holding sel) (queue w) + qsum (serving sel) (queue w);
  inv_cap : Z.of_nat (length (users w)) <= 1;
  inv_failed : qsum failed (queue w) = 0;
  inv_source : qsum sourcing (queue w) <= 1;
  inv_events : Forall (event_ok (random w) (log w)) (queue w);
  inv_put : Forall (line_ok (log w)) (put_queue w);
  inv_log : Forall (entry_ok (log w)) (log w);
  inv_bound : Z.of_nat (length (waiting w)) <= Z.max 0 K;
  inv_paired : drops_paired (log w) = true;
  inv_roomy : Z.max 0 N <= K -> loss w = []
}.

(** A request waits only while the server is held or its release is
    still to be processed. *)
Definition line_served (w : world) : Prop :=
  put_queue w <> [] ->
  0 < Z.of_nat (length (users w)) + qsum releasing (queue w).

Definition Inv (w : world) : Prop := Core w /\ line_served w.

(** The state just before [step] popped the entry [(k, e)]. *)
Definition unpop (k : key) (e : event) (w : world) : world :=
  set_queue ((k, e) :: queue w) (eid w) w.

Lemma starting_nonneg sel e : 0 <= starting sel e.
Proof.
  unfold starting. destruct (frame e) as [[]|]; try lia; apply ind_nonneg.
Qed.

Lemma holding_nonneg sel e : 0 <= holding sel e.
Proof.
  unfold holding. destruct (frame e) as [[]|]; try lia; apply ind_nonneg.
Qed.

Lemma serving_nonneg sel e : 0 <= serving sel e.
Proof.
  unfold serving. destruct (frame e) as [[]|]; try lia; apply ind_nonneg.
Qed.

Lemma unborn_nonneg sel e : 0 <= unborn sel e.
Proof.
  unfold unborn. destruct (frame e) as [[]|]; try lia; apply span_nonneg.
Qed.

Lemma sourcing_nonneg e : 0 <= sourcing e.
Proof. unfold sourcing. destruct (frame e) as [[]|]; lia. Qed.

Lemma releasing_nonneg e : 0 <= releasing e.
Proof. destruct e; simpl; lia. Qed.

Lemma gen_ok_log r l l' g : incl l l' -> gen_ok r l g -> gen_ok r l' g.
Proof.
  intros Hl. destruct g; simpl; auto;
    intros [Hs [n [Hin Hn]]]; split; eauto.
Qed.

Lemma event_ok_log r l l' ke : incl l l' -> event_ok r l ke -> event_ok r l' ke.
Proof.
  intros Hl. unfold event_ok. destruct (frame (snd ke)); eauto using gen_ok_log.
Qed.

Lemma line_ok_log l l' g : incl l l' -> line_ok l g -> line_ok l' g.
Proof.
  intros Hl. destruct g; simpl; auto.
  intros [Hs [n [Hin Hn]]]; split; eauto.
Qed.

Lemma entry_ok_log l l' o : incl l l' -> entry_ok l o -> entry_ok l' o.
Proof.
  intros Hl. destruct o; simpl; auto.
  - intros [Hin H]; split; auto.
  - intros [a [n [Hin H]]]. exists a, n. split; auto.
Qed.

Lemma events_ok_log r l o q :
  Forall (event_ok r l) q -> Forall (event_ok r (l ++ [o])) q.
Proof.
  apply Forall_impl. intros ke. apply event_ok_log. apply incl_appl, incl_refl.
Qed.

Lemma line_ok_grow l o q : Forall (line_ok l) q -> Forall (line_ok (l ++ [o])) q.
Proof.
  apply Forall_impl. intros g. apply line_ok_log. apply incl_appl, incl_refl.
Qed.

Lemma entries_ok_grow l o :
  Forall (entry_ok l) l -> entry_ok (l ++ [o]) o ->
  Forall (entry_ok (l ++ [o])) (l ++ [o]).
Proof.
  intros Hl Ho. apply Forall_app. split.
  - revert Hl. apply Forall_impl. intros o'. apply entry_ok_log.
    apply incl_appl, incl_refl.
  - constructor; auto.
Qed.

(** With no source event pending, the generator's state is irrelevant. *)
Lemma events_ok_random r r' l q :
  qsum sourcing q <= 0 -> Forall (event_ok r l) q -> Forall (event_ok r' l) q.
Proof.
  induction q as [|[k e] q IH]; intros Hs Hq; [constructor|].
  inversion Hq as [|? ? He Hq']; subst. simpl in Hs.
  pose proof (sourcing_nonneg e). pose proof (qsum_nonneg sourcing q sourcing_nonneg).
  constructor; [|apply IH; auto; lia].
  unfold event_ok, sourcing in *. simpl in *.
  destruct (frame e) as [[]|]; simpl in *; auto. lia.
Qed.

Lemma drops_paired_app l l' :
  drops_paired l = true -> drops_paired l' = true ->
  drops_paired (l ++ l') = true.
Proof.
  intros Hl Hl'.
  assert (H : forall m, (length m <= length l)%nat -> drops_paired m = true ->
                        drops_paired (m ++ l') = true).
  { induction (length l) as [|n IH]; intros m Hm Hd.
    - destruct m; [assumption|simpl in Hm; lia].
    - destruct m as [|o m]; [assumption|].
      destruct o; simpl in *; try (apply IH; [lia|assumption]).
      destruct (n0 >? K).
      + destruct m as [|[] m]; try discriminate. simpl in *.
        destruct ((name0 =? name) && (n1 =? n0 - 1)); [|discriminate].
        simpl in *. apply IH; [lia|assumption].
      + apply IH; [lia|assumption]. }
  apply H; auto.
Qed.

(** The log projections distribute over the entries a step appends. *)
Lemma arrived_app l l' : arrived (l ++ l') = arrived l ++ arrived l'.
Proof. apply flat_map_app. Qed.

Lemma dropped_app l l' : dropped (l ++ l') = dropped l ++ dropped l'.
Proof. apply flat_map_app. Qed.

Lemma granted_app l l' : granted (l ++ l') = granted l ++ granted l'.
Proof. apply flat_map_app. Qed.

Lemma departed_app l l' : departed (l ++ l') = departed l ++ departed l'.
Proof. apply flat_map_app. Qed.

Lemma waits_app l l' : waits (l ++ l') = waits l ++ waits l'.
Proof. apply flat_map_app. Qed.

Lemma length_waits l : length (waits l) = length (granted l).
Proof.
  induction l as [|o l IH]; [reflexivity|].
  destruct o; cbn [waits granted flat_map app length] in *;
    fold (waits l); fold (granted l); congruence.
Qed.

Ltac norm :=
  cbn [unpop set_random set_now set_queue set_server set_wait_times
       set_waiting set_loss say schedule process finish fail release
       random now queue eid users put_queue wait_times waiting loss log
       qsum starting holding serving unborn sourcing releasing failed frame
       tally map request_of length] in *.

Ltac facts H s :=
  pose proof (inv_born _ H s); pose proof (inv_life _ H s);
  pose proof (inv_wait _ H s); pose proof (inv_users _ H s); norm.

Ltac basics H :=
  pose proof (inv_loss _ H); pose proof (inv_occ _ H);
  pose proof (inv_times _ H); pose proof (inv_cap _ H);
  pose proof (inv_failed _ H); pose proof (inv_source _ H);
  pose proof (inv_events _ H); pose proof (inv_put _ H);
  pose proof (inv_log _ H); pose proof (inv_bound _ H);
  pose proof (inv_paired _ H); pose proof (inv_roomy _ H); norm.

Lemma ind_everyone x : ind (everyone x) = 1.
Proof. reflexivity. Qed.

Ltac grow :=
  repeat (progress
    (rewrite ?qsum_heappush, ?arrived_app, ?dropped_app, ?granted_app,
       ?departed_app, ?waits_app, ?map_app, ?tally_app, ?app_nil_r;
     cbn [arrived dropped granted departed waits flat_map app tally map
          request_of length qsum starting holding serving unborn sourcing
          releasing failed frame])).

Ltac count :=
  rewrite ?ind_everyone, ?tally_everyone, ?span_everyone, ?length_map,
    ?length_app in *;
  cbn [length] in *; lia.

Ltac fields w :=
  destruct w as [rnd clock q ids us line wts occ ls lg]; norm.

Lemma core_popped k e w :
  Inv (unpop k e w) -> frame e = None -> failed e = 0 -> Core w.
Proof.
  fields w. intros [H _] Hf Hx. basics H.
  match goal with H : Forall _ (_ :: _) |- _ => inversion H; subst end.
  destruct e as [| | | |[x|]]; try discriminate; norm;
    constructor; intros; norm; try (facts H sel); auto; try lia.
Qed.

Lemma step_process k w : Inv (unpop k (Process None) w) -> Inv w.
Proof.
  intros H. split; [eapply core_popped; eauto|].
  destruct H as [_ H]. unfold line_served in *. norm. auto.
Qed.

Lemma inv_trigger_put w : Core w -> Inv (trigger_put w).
Proof.
  fields w. intros H. unfold trigger_put. norm.
  destruct line as [|r rest].
  { split; [assumption|]. intros Hne. norm. congruence. }
  destruct (Z.ltb_spec (Z.of_nat (length us)) 1) as [Hu|Hu].
  2:{ split; [assumption|]. intros _. norm.
      pose proof (qsum_nonneg releasing q releasing_nonneg). lia. }
  basics H.
  destruct us as [|u us]; [|simpl in Hu; lia].
  match goal with H : Forall _ (_ :: _) |- _ => inversion H as [|? ? Hr Hrest]; subst end.
  destruct r as [| |x s a|]; simpl in Hr; try contradiction.
  split.
  - constructor; intros; norm; grow; try (facts H sel); try (facts H everyone); auto; try count.
    + apply Forall_heappush; auto.
  - intros _. norm. grow.
    pose proof (qsum_nonneg releasing q releasing_nonneg). lia.
Qed.

Lemma step_release k w : Inv (unpop k Release w) -> Inv (trigger_put w).
Proof. intros H. apply inv_trigger_put. eapply core_popped; eauto. Qed.

Ltac nonnegs q lg :=
  pose proof (qsum_nonneg (starting everyone) q (starting_nonneg everyone));
  pose proof (qsum_nonneg (holding everyone) q (holding_nonneg everyone));
  pose proof (qsum_nonneg (serving everyone) q (serving_nonneg everyone));
  pose proof (qsum_nonneg (unborn everyone) q (unborn_nonneg everyone));
  pose proof (qsum_nonneg sourcing q sourcing_nonneg);
  pose proof (qsum_nonneg releasing q releasing_nonneg);
  pose proof (tally_nonneg everyone (dropped lg));
  pose proof (tally_nonneg everyone (departed lg)).

Ltac popped Hev :=
  match goal with
  | H : Forall _ (_ :: _) |- _ => inversion H as [|? ? Hev ?]; subst; clear H
  end.

Section Traced.

Hypothesis Hia : (mean_ia_time p =? 0)%float = false.
Hypothesis Hsrv : (mean_srv_time p =? 0)%float = false.
Hypothesis Htrace : trace p = true.

Lemma step_source k e i w :
  Inv (unpop k e w) -> frame e = Some (GSource i) -> Inv (source p i w).
Proof.
  fields w. intros [H HL] Hf. basics H. popped Hev.
  unfold event_ok in Hev. cbn [snd] in Hev. rewrite Hf in Hev. cbn [gen_ok] in Hev.
  nonnegs q lg. unfold line_served in *. norm.
  assert (Hq : Forall (event_ok rnd lg) q) by assumption.
  unfold source. norm. destruct (Z.ltb_spec i N) as [Hi|Hi].
  - rewrite Hia.
    replace (Z.to_nat (N - i)) with (S (Z.to_nat (N - (i + 1)))) in Hev by lia.
    cbn [draws_ok] in Hev.
    destruct (expovariate (1 / mean_ia_time p) rnd) as [[ia|] r1];
      [|discriminate]. norm.
    rewrite Hsrv.
    destruct (expovariate (1 / mean_srv_time p) r1) as [[srv|] r2];
      [|discriminate]. norm.
    apply andb_prop in Hev. destruct Hev as [Hev Hrest].
    apply andb_prop in Hev. destruct Hev as [Hia' Hsrv'].
    apply negb_true_iff in Hia', Hsrv'.
    unfold timeout. norm. rewrite Hia'. norm.
    destruct e; cbn [frame] in Hf; try discriminate; injection Hf as ->; norm.
    all: split;
      [constructor; intros; norm; grow; try (facts H sel);
       rewrite ?(span_next _ i N Hi) in *; auto; try count
      |intros Hne; norm; grow; specialize (HL Hne); lia].
    all: repeat apply Forall_heappush; unfold event_ok; cbn [snd frame gen_ok];
      auto; apply events_ok_random with (r := rnd); auto; lia.
  - destruct e; cbn [frame] in Hf; try discriminate; injection Hf as ->; norm.
    all: split;
      [constructor; intros; norm; grow; try (facts H sel);
       rewrite ?(span_done _ i N Hi) in *; auto; try count
      |intros Hne; norm; grow; specialize (HL Hne); lia].
    all: repeat apply Forall_heappush; unfold event_ok; cbn [snd frame gen_ok];
      auto.
Qed.



Lemma inv_frame k e g w :
  Inv (unpop k e w) -> frame e = Some g -> Inv (unpop k (Initialize g) w).
Proof.
  intros H Hf. destruct e; cbn [frame] in Hf; try discriminate;
    injection Hf as ->; auto.
  all: destruct H as [H HL]; split; [|exact HL];
    destruct H as [? ? ? ? ? ? ? ? ? ? Hev ? ? ? ? ?];
    constructor; try assumption;
    cbn [unpop set_queue queue random log] in *;
    inversion Hev; subst; constructor; assumption.
Qed.

Ltac others q lg Hq :=
  try (repeat apply Forall_heappush; unfold event_ok; cbn [snd frame gen_ok];
       auto; repeat apply events_ok_log; exact Hq);
  try (repeat apply line_ok_grow; assumption);
  try (rewrite <- ?app_assoc; apply drops_paired_app; [assumption|]).

Lemma step_packet_drop k x s w :
  Inv (unpop k (Initialize (GPacket x s)) w) ->
  K < Z.of_nat (length (waiting w)) + 1 ->
  Inv (packet p x s w).
Proof.
  fields w. intros [H HL] Hk. basics H. popped Hev.
  nonnegs q lg. unfold line_served in *. norm.
  assert (Hq : Forall (event_ok rnd lg) q) by assumption.
  assert (Hlen : Z.of_nat (length (occ ++ [1])) = Z.of_nat (length occ) + 1)
    by (rewrite length_app; simpl; lia).
  unfold packet. rewrite Htrace. norm. rewrite Hlen.
  destruct (Z.gtb_spec (Z.of_nat (length occ) + 1) K) as [_|Hk']; [|lia].
  rewrite removelast_last; norm; split;
    [constructor; intros; norm; grow; try (facts H sel); auto; try count
    |intros Hne; norm; grow; specialize (HL Hne); lia].
  all: others q lg Hq.
  - apply entries_ok_grow; [apply entries_ok_grow; [assumption|]|];
      cbn [entry_ok]; [lia|].
    split; [|lia]. apply in_or_app. left. apply in_or_app. right. left. reflexivity.
  - cbn [app drops_paired].
    destruct (Z.gtb_spec (Z.of_nat (length occ) + 1) K); [|lia].
    rewrite Z.eqb_refl. cbn [andb]. rewrite andb_true_r. apply Z.eqb_eq. lia.
  - exfalso. facts H everyone. count.
Qed.

Lemma step_packet_enter k x s w :
  Inv (unpop k (Initialize (GPacket x s)) w) ->
  Z.of_nat (length (waiting w)) + 1 <= K ->
  Inv (packet p x s w).
Proof.
  fields w. intros [H HL] Hk. basics H. popped Hev.
  nonnegs q lg. unfold line_served in *. norm.
  assert (Hq : Forall (event_ok rnd lg) q) by assumption.
  assert (Hlen : Z.of_nat (length (occ ++ [1])) = Z.of_nat (length occ) + 1)
    by (rewrite length_app; simpl; lia).
  unfold packet. rewrite Htrace. norm. rewrite Hlen.
  destruct (Z.gtb_spec (Z.of_nat (length occ) + 1) K) as [Hk'|_]; [lia|].
  unfold request; norm; apply inv_trigger_put;
      constructor; intros; norm; grow; try (facts H sel); auto; try count.
  all: others q lg Hq.
  - apply Forall_app. split; [apply line_ok_grow; assumption|].
    constructor; [|constructor]. cbn [line_ok]. split; [exact Hev|].
    eexists. split; [apply in_or_app; right; left; reflexivity|lia].
  - apply entries_ok_grow; [assumption|]. cbn [entry_ok]. lia.
  - cbn [drops_paired].
    destruct (Z.gtb_spec (Z.of_nat (length occ) + 1) K); [lia|reflexivity].
Qed.

Lemma step_packet k e x s w :
  Inv (unpop k e w) -> frame e = Some (GPacket x s) -> Inv (packet p x s w).
Proof.
  intros H Hf. pose proof (inv_frame _ _ _ _ H Hf) as H'.
  destruct (Z.lt_ge_cases (system_capacity p) (Z.of_nat (length (waiting w)) + 1)).
  - eapply step_packet_drop; eauto.
  - eapply step_packet_enter; eauto.
Qed.

Lemma step_granted k e x s a w :
  Inv (unpop k e w) -> frame e = Some (GPacketReq x s a) ->
  Inv (packet_granted x s a w).
Proof.
  intros H0 Hf. pose proof (inv_frame _ _ _ _ H0 Hf) as H'. clear H0 Hf.
  revert H'. fields w. intros [H HL]. basics H. popped Hev.
  nonnegs q lg. unfold line_served in *. norm.
  assert (Hq : Forall (event_ok rnd lg) q) by assumption.
  destruct Hev as [Hs [n [Hin Hn]]].
  unfold packet_granted, timeout. norm. rewrite Hs.
  norm; split;
    [constructor; intros; norm; grow; try (facts H sel); auto; try count
    |intros Hne; norm; grow; specialize (HL Hne); lia].
  all: others q lg Hq.
  - apply Forall_heappush; [|apply events_ok_log; exact Hq].
    unfold event_ok. cbn [snd frame gen_ok]. split; [exact Hs|].
    exists n. split; [apply in_or_app; left; exact Hin|exact Hn].
  - apply entries_ok_grow; [assumption|]. cbn [entry_ok].
    exists a, n. split; [apply in_or_app; left; exact Hin|]. split; [exact Hn|reflexivity].
  - reflexivity.
Qed.

Lemma step_served k e x s a w :
  Inv (unpop k e w) -> frame e = Some (GPacketSrv x s a) ->
  Inv (packet_served p x s a w).
Proof.
  intros H0 Hf. pose proof (inv_frame _ _ _ _ H0 Hf) as H'. clear H0 Hf.
  revert H'. fields w. intros [H HL]. basics H. popped Hev.
  nonnegs q lg. unfold line_served in *. norm.
  assert (Hq : Forall (event_ok rnd lg) q) by assumption.
  unfold packet_served. rewrite Htrace. norm.
  destruct occ as [|o occ]; [exfalso; count|].
  pose proof (length_removelast_cons o occ) as Hlen.
  assert (Hin : In x us).
  { apply tally_in. facts H (Z.eqb x). rewrite Z.eqb_refl in *.
    pose proof (qsum_nonneg (holding (Z.eqb x)) q (holding_nonneg _)).
    pose proof (qsum_nonneg (serving (Z.eqb x)) q (serving_nonneg _)).
    cbn [ind] in *. lia. }
  pose proof (length_list_remove x us) as Hrem.
  norm; split;
    [constructor; intros; norm; grow; try (facts H sel);
     rewrite ?(tally_list_remove _ _ _ Hin); auto; try count
    |intros Hne; norm; grow; lia].
  all: others q lg Hq.
  - apply entries_ok_grow; [assumption|]. cbn [entry_ok]. count.
  - reflexivity.
Qed.




Lemma inv_now t w : Inv w -> Inv (set_now t w).
Proof.
  intros [H HL]. split; [|exact HL]. destruct H. constructor; assumption.
Qed.

(** One step of the scheduler keeps the invariant and raises nothing. *)
Lemma step_inv w :
  Inv w ->
  match step p w with
  | EmptySchedule => queue w = []
  | Raise _ _ => False
  | Next w' => Inv w'
  end.
Proof.
  intros H. unfold step.
  destruct (queue w) as [|[[[t pr] n] e] q] eqn:Hqueue; [reflexivity|].
  assert (H' : Inv (unpop (t, pr, n) e (set_now t (set_queue q (eid w) w)))).
  { apply (inv_now t) in H. revert H. destruct w. cbn in *. subst. auto. }
  destruct e as [g|g|g| |[x|]]; cbn [callbacks].
  1-3: destruct g; cbn [resume];
    [eapply step_source|eapply step_packet|eapply step_granted
    |eapply step_served]; first [exact H'|reflexivity].
  - eapply step_release; exact H'.
  - destruct H' as [H' _]. pose proof (inv_failed _ H') as Hf.
    cbn [unpop set_queue queue qsum failed] in Hf.
    match type of Hf with 1 + qsum failed ?l = 0 =>
      pose proof (qsum_nonneg failed l) as Hn end.
    assert (forall e, 0 <= failed e) by (intros [| | | |[|]]; simpl; lia).
    specialize (Hn H0). lia.
  - eapply step_process; exact H'.
Qed.

Lemma after_inv n w w' : Inv w -> after p n w = Some w' -> Inv w'.
Proof.
  revert w. induction n as [|n IH]; intros w H Ha; simpl in Ha.
  - congruence.
  - pose proof (step_inv w H) as Hs.
    destruct (step p w); try discriminate. eauto.
Qed.

Lemma run_inv fuel w r :
  Inv w -> run p fuel w = Some r ->
  fst r = None /\ Inv (snd r) /\ queue (snd r) = [].
Proof.
  revert w. induction fuel as [|fuel IH]; intros w H Hr; simpl in Hr;
    [discriminate|].
  pose proof (step_inv w H) as Hs.
  destruct (step p w).
  - injection Hr as <-. auto.
  - contradiction.
  - eauto.
Qed.

Lemma inv_start s g :
  draws_ok (Z.to_nat N) (seed s) = true -> Inv (start s g).
Proof.
  intros Hd. unfold start, process. split.
  - constructor; intros; norm; cbn [heappush]; norm;
      cbn [arrived dropped granted departed waits flat_map tally];
      rewrite ?Z.sub_0_r; auto; try count.
    repeat constructor. unfold event_ok. cbn [snd frame gen_ok].
    rewrite ?Z.sub_0_r. exact Hd.
  - intros Hne. norm. congruence.
Qed.

(** A traced run with sound parameters returns, and ends in a state that
    satisfies the invariant with nothing left to do. *)
Lemma run_completes s g fuel :
  draws_ok (Z.to_nat N) (seed s) = true ->
  2 + 7 * Z.max 0 N < Z.of_nat fuel ->
  exists w, run p fuel (start s g) = Some (None, w) /\ Inv w /\ queue w = [].
Proof.
  intros Hd Hf.
  destruct (run_terminates p fuel (start s g)) as [[x w] Hr].
  { rewrite potential_start. exact Hf. }
  destruct (run_inv _ _ _ (inv_start s g Hd) Hr) as [Hx [Hw Hq]].
  simpl in *. subst. eauto.
Qed.

(** When the schedule is empty nobody is left in the system. *)
Lemma ended w :
  Inv w -> queue w = [] ->
  users w = [] /\ put_queue w = [] /\ waiting w = [] /\
  (forall sel, tally sel (arrived (log w)) = span sel 0 (Z.to_nat N)) /\
  (forall sel, tally sel (arrived (log w))
               = tally sel (dropped (log w)) + tally sel (departed (log w))) /\
  (forall sel, tally sel (granted (log w)) = tally sel (departed (log w))).
Proof.
  fields w. intros [H HL] ->. basics H. unfold line_served in HL. norm.
  assert (Hus : us = []).
  { apply tally_zero. facts H everyone. lia. }
  subst us.
  assert (Hline : line = []).
  { destruct line; [reflexivity|]. exfalso.
    assert (0 < Z.of_nat (@length Z []) + 0) by (apply HL; discriminate).
    simpl in *. lia. }
  subst line.
  assert (Hocc : occ = []) by (destruct occ; [reflexivity|simpl in *; lia]).
  repeat split; auto; intros sel; facts H sel; lia.
Qed.

(** With no room at all nobody is ever granted the server. *)
Lemma no_grant lg :
  K <= 0 -> Forall (entry_ok lg) lg -> waits lg = [] /\ granted lg = [].
Proof.
  intros HK Hlg.
  assert (H : forall l, incl l lg -> waits l = [] /\ granted l = []).
  { induction l as [|o l IH]; intros Hl; [split; reflexivity|].
    assert (Ho : In o lg) by (apply Hl; left; reflexivity).
    destruct IH as [IH1 IH2]; [intros y Hy; apply Hl; right; exact Hy|].
    rewrite Forall_forall in Hlg.
    destruct o; cbn [waits granted flat_map app]; fold (waits l); fold (granted l);
      auto.
    exfalso. destruct (Hlg _ Ho) as [a [n [Hin [Hn _]]]].
    pose proof (Hlg _ Hin) as Ha. cbn [entry_ok] in Ha. lia. }
  apply H, incl_refl.
Qed.

(** An arrival that found the system full is in the log as dropped. *)
Lemma paired_dropped l a x m :
  drops_paired l = true -> In (Arrived a x m) l -> K < m -> In x (dropped l).
Proof.
  intros Hl Hin Hm.
  assert (H : forall n l, (length l <= n)%nat -> drops_paired l = true ->
                          In (Arrived a x m) l -> In x (dropped l)).
  { clear l Hl Hin. induction n as [|n IH]; intros l Hn Hl Hin.
    - destruct l; [contradiction|simpl in Hn; lia].
    - destruct l as [|o l]; [contradiction|]. simpl in Hn.
      destruct Hin as [->|Hin].
      + cbn [drops_paired] in Hl.
        destruct (Z.gtb_spec m K); [|lia].
        destruct l as [|[] l]; try discriminate.
        apply andb_prop in Hl. destruct Hl as [Hl _].
        apply andb_prop in Hl. destruct Hl as [Hx _].
        apply Z.eqb_eq in Hx. subst. cbn. left. reflexivity.
      + destruct o; cbn [drops_paired] in Hl;
          cbn [dropped flat_map app]; fold (dropped l);
          try (try right; apply IH; auto; lia).
        destruct (n0 >? K).
        * destruct l as [|[] l]; try discriminate.
          apply andb_prop in Hl. destruct Hl as [_ Hl].
          destruct Hin as [Hin|Hin]; [discriminate|].
          cbn [dropped flat_map app]. fold (dropped l). right.
          apply IH; auto. simpl in Hn. lia.
        * apply IH; auto. lia. }
  eapply H; eauto.
Qed.

End Traced.
End Invariant.

(** ** The invariant of a run with the trace flag off *)

Section Untraced.

Context {R : Runtime}.
Variable p : params.

Hypothesis Hia : (mean_ia_time p =? 0)%float = false.
Hypothesis Hsrv : (mean_srv_time p =? 0)%float = false.
Hypothesis Htrace : trace p = false.

(** Only the source and packets at their entry are ever pending. *)
Definition quiet (r : rng) (ke : key * event) : Prop :=
  match frame (snd ke) with
  | Some (GSource i) => draws_ok p (Z.to_nat (number p - i)) r = true
  | Some (GPacket _ _) => True
  | Some _ => False
  | None => True
  end.

Record Idle (w : world) : Prop := {
  idle_loss : loss w = [];
  idle_times : wait_times w = [];
  idle_log : log w = [];
  idle_line : put_queue w = [];
  idle_failed : qsum failed (queue w) = 0;
  idle_source : qsum (sourcing) (queue w) <= 1;
  idle_events : Forall (quiet (random w)) (queue w);
  idle_count :
    Z.of_nat (length (waiting w)) + qsum (starting everyone) (queue w)
    + qsum (unborn p everyone) (queue w) = Z.max 0 (number p)
}.

Lemma quiet_random r r' q :
  qsum sourcing q <= 0 -> Forall (quiet r) q -> Forall (quiet r') q.
Proof.
  induction q as [|[k e] q IH]; intros Hs Hq; [constructor|].
  inversion Hq as [|? ? He Hq']; subst. simpl in Hs.
  pose proof (sourcing_nonneg e). pose proof (qsum_nonneg sourcing q sourcing_nonneg).
  constructor; [|apply IH; auto; lia].
  unfold quiet, sourcing in *. simpl in *.
  destruct (frame e) as [[]|]; simpl in *; auto. lia.
Qed.

Ltac idle_fields :=
  constructor;
  cbn [set_random set_now set_queue set_waiting schedule process finish
       random now queue eid users put_queue wait_times waiting loss log];
  rewrite ?qsum_heappush;
  cbn [failed sourcing starting unborn frame];
  rewrite ?ind_everyone, ?length_app in *; cbn [length];
  auto; try lia.

Lemma idle_step w :
  Idle w ->
  match step p w with
  | EmptySchedule => queue w = []
  | Raise _ _ => False
  | Next w' => Idle w'
  end.
Proof.
  intros H. unfold step.
  destruct w as [rnd clock q0 ids us line wts occ ls lg].
  destruct H as [Hloss Htimes Hlog Hline Hfailed Hsource Hevents Hcount].
  cbn [loss wait_times log put_queue queue random waiting] in *. subst.
  destruct q0 as [|[[[t pr] n] e] q]; [reflexivity|].
  inversion Hevents as [|? ? Hev Hq]; subst. unfold quiet in Hev. cbn [snd] in Hev.
  pose proof (qsum_nonneg sourcing q sourcing_nonneg).
  pose proof (qsum_nonneg failed q) as Hnf.
  assert (Hf0 : forall e, 0 <= failed e) by (intros [| | | |[|]]; simpl; lia).
  specialize (Hnf Hf0).
  assert (Hframe : forall g, frame e = Some g ->
            Idle (resume p g (set_now t (set_queue q ids
              {| random := rnd; now := clock;
                 queue := (t, pr, n, e) :: q; eid := ids; users := us;
                 put_queue := []; wait_times := []; waiting := occ;
                 loss := []; log := [] |})))).
  { intros g Hg. rewrite Hg in Hev.
    assert (Hst : starting everyone e
                  = match g with GPacket _ _ => 1 | _ => 0 end)
      by (unfold starting; rewrite Hg; destruct g; reflexivity).
    assert (Hun : unborn p everyone e
                  = match g with
                    | GSource i => span everyone i (Z.to_nat (number p - i))
                    | _ => 0
                    end)
      by (unfold unborn; rewrite Hg; destruct g; reflexivity).
    assert (Hso : sourcing e = match g with GSource _ => 1 | _ => 0 end)
      by (unfold sourcing; rewrite Hg; destruct g; reflexivity).
    assert (Hfe : failed e = 0) by (destruct e; try discriminate; reflexivity).
    cbn [qsum] in *. rewrite Hst, Hun in Hcount. rewrite Hso in Hsource.
    rewrite Hfe in Hfailed.
    destruct g as [i|x s|x s a|x s a]; try contradiction; cbn [resume].
    - unfold source.
      cbn [set_now set_queue random now queue eid users put_queue wait_times
           waiting loss log].
      destruct (Z.ltb_spec i (number p)) as [Hi|Hi].
      + rewrite Hia.
        replace (Z.to_nat (number p - i))
          with (S (Z.to_nat (number p - (i + 1)))) in Hev, Hcount by lia.
        cbn [draws_ok span] in Hev, Hcount.
        destruct (expovariate (1 / mean_ia_time p) rnd) as [[ia|] r1];
          [|discriminate].
        cbn [set_random random now queue eid users put_queue wait_times
           waiting loss log].
        rewrite Hsrv.
        destruct (expovariate (1 / mean_srv_time p) r1) as [[srv|] r2];
          [|discriminate].
        apply andb_prop in Hev. destruct Hev as [Hev Hrest].
        apply andb_prop in Hev. destruct Hev as [Hia' Hsrv'].
        apply negb_true_iff in Hia', Hsrv'.
        unfold timeout. rewrite Hia'.
        idle_fields.
        repeat apply Forall_heappush; unfold quiet; cbn [snd frame]; auto.
        apply quiet_random with (r := rnd); auto; lia.
      + replace (Z.to_nat (number p - i)) with O in Hcount by lia.
        cbn [span] in Hcount. idle_fields.
        apply Forall_heappush; unfold quiet; cbn [snd frame]; auto.
    - unfold packet. rewrite Htrace. idle_fields.
      apply Forall_heappush; unfold quiet; cbn [snd frame]; auto. }
  destruct e as [g|g|g| |[x|]]; cbn [callbacks];
    try (apply Hframe; reflexivity).
  - unfold trigger_put.
    cbn [set_now set_queue random now queue eid users put_queue wait_times
         waiting loss log qsum failed sourcing starting unborn frame] in *.
    constructor; cbn; auto; lia.
  - cbn [qsum failed] in Hfailed. lia.
  - cbn [set_now set_queue random now queue eid users put_queue wait_times
         waiting loss log qsum failed sourcing starting unborn frame] in *.
    constructor; cbn; auto; lia.
Qed.

Lemma idle_run fuel w r :
  Idle w -> run p fuel w = Some r ->
  fst r = None /\ Idle (snd r) /\ queue (snd r) = [].
Proof.
  revert w. induction fuel as [|fuel IH]; intros w H Hr; simpl in Hr;
    [discriminate|].
  pose proof (idle_step w H) as Hs.
  destruct (step p w).
  - injection Hr as <-. auto.
  - contradiction.
  - eauto.
Qed.

Lemma idle_start s g :
  draws_ok p (Z.to_nat (number p)) (seed s) = true -> Idle (start s g).
Proof.
  intros Hd. unfold start, process.
  constructor; cbn; auto; try lia.
  - repeat constructor. unfold quiet. cbn. now rewrite Z.sub_0_r.
  - rewrite Z.sub_0_r, span_everyone. lia.
Qed.

End Untraced.

(** ** The arrival schedule

    What the specification says of the arrival generator, as a list: for each
    customer in turn the gap is drawn and then the service time; the customer
    is started where the source stands (a process starts after a delay of
    0), and the source moves on by the gap. *)

Section Arrivals.

Context {R : Runtime}.
Variable p : params.

Fixpoint arrivals (n : nat) (r : rng) (t : float) : list (float * float) :=
  match n with
  | O => []
  | S n' =>
      match expovariate (1 / mean_ia_time p)%float r with
      | (Some ia_time, r1) =>
          match expovariate (1 / mean_srv_time p)%float r1 with
          | (Some srv_time, r2) =>
              ((t + 0)%float, srv_time) :: arrivals n' r2 (t + ia_time)%float
          | (None, _) => []
          end
      | (None, _) => []
      end
  end.

(** The schedule of the run under study. *)
Variable A : list (float * float).






















End Arrivals.


Lemma length_arrivals {R : Runtime} p n r t :
  draws_ok p n r = true -> length (arrivals p n r t) = n.
Proof.
  revert r t. induction n as [|n IH]; intros r t; cbn [arrivals draws_ok];
    [reflexivity|].
  destruct (expovariate _ r) as [[ia|] r1]; [|discriminate].
  destruct (expovariate _ r1) as [[sv|] r2]; [|discriminate].
  intros Hd. apply andb_prop in Hd. destruct Hd as [_ Hd].
  cbn [length]. now rewrite IH.
Qed.

(** ** The call of the specification *)

(** [runSimulation] of the specification has no trace argument: it is
    [run_simulation] called with the five other arguments, [trace] left at its
    default [True]. *)
Definition runSimulation {R : Runtime} (fuel : nat)
  (meanInterarrivalTime meanServiceTime : float)
  (systemCapacity numCustomers randomSeed : Z) (g : rng)
  : option (outcome * rng) :=
  run_simulation fuel meanInterarrivalTime meanServiceTime systemCapacity
    numCustomers randomSeed true g.

(** The parameters of a traced run. *)
Definition traced (ia srv : float) (K n : Z) : params :=
  {| mean_ia_time := ia; mean_srv_time := srv; system_capacity := K;
     number := n; trace := true |}.

(** The parameters of a run with the flag off. *)
Definition untraced (ia srv : float) (K n : Z) : params :=
  {| mean_ia_time := ia; mean_srv_time := srv; system_capacity := K;
     number := n; trace := false |}.

(** The preconditions a run needs to raise nothing: both mean times are not
    zero; every draw for the [number p] customers returns, which it does
    when the rates [1.0 / mean] are not zero, that is, when the mean times
    are not infinite; and the variates that the seeded generator yields are
    not negative.  Positive finite mean times give [random.expovariate] a
    positive rate, and its variates are then non-negative. *)
Definition valid_run {R : Runtime} (p : params) (random_seed : Z) : bool :=
  negb (mean_ia_time p =? 0)%float && negb (mean_srv_time p =? 0)%float
  && draws_ok p (Z.to_nat (number p)) (seed random_seed).

(** The steps a run of [n] customers takes at most, plus one. *)
Definition enough (fuel : nat) (n : Z) : Prop :=
  2 + 7 * Z.max 0 n < Z.of_nat fuel.

Section Results.

Context {R : Runtime}.

Lemma valid_run_spec p s :
  valid_run p s = true ->
  (mean_ia_time p =? 0)%float = false /\
  (mean_srv_time p =? 0)%float = false /\
  draws_ok p (Z.to_nat (number p)) (seed s) = true.
Proof.
  unfold valid_run. intros H.
  apply andb_prop in H. destruct H as [H H3].
  apply andb_prop in H. destruct H as [H1 H2].
  apply negb_true_iff in H1, H2. auto.
Qed.

(** With a customer to generate, valid parameters have rates that are not
    zero: an infinite mean time is not valid. *)
Lemma valid_run_rates p s :
  1 <= number p -> valid_run p s = true ->
  (1 / mean_ia_time p =? 0)%float = false /\
  (1 / mean_srv_time p =? 0)%float = false.
Proof.
  intros Hn Hv. apply valid_run_spec in Hv. destruct Hv as [_ [_ Hd]].
  replace (Z.to_nat (number p)) with (S (Z.to_nat (number p - 1))) in Hd
    by lia.
  cbn [draws_ok] in Hd.
  pose proof (expovariate_raises (1 / mean_ia_time p) (seed s)) as Hr1.
  destruct (expovariate (1 / mean_ia_time p) (seed s)) as [[ia|] r1];
    [|discriminate].
  pose proof (expovariate_raises (1 / mean_srv_time p) r1) as Hr2.
  destruct (expovariate (1 / mean_srv_time p) r1) as [[srv|] r2];
    [|discriminate].
  cbn [fst] in Hr1, Hr2. split.
  - destruct (1 / mean_ia_time p =? 0)%float; [|reflexivity].
    destruct Hr1 as [_ Hr1]. discriminate (Hr1 eq_refl).
  - destruct (1 / mean_srv_time p =? 0)%float; [|reflexivity].
    destruct Hr2 as [_ Hr2]. discriminate (Hr2 eq_refl).
Qed.

(** The preconditions of the specification, both means positive, make the
    means non-zero. *)
Lemma positive_nonzero m : (0 <? m)%float = true -> (m =? 0)%float = false.
Proof.
  rewrite ltb_spec, eqb_spec.
  change (Prim2SF 0) with (S754_zero false).
  destruct (Prim2SF m) as [sg|sg| |sg mm e]; cbn; try discriminate; auto.
  all: destruct sg; cbn; auto; try discriminate.
Qed.

Lemma valid_run_positive p s :
  (0 <? mean_ia_time p)%float = true ->
  (0 <? mean_srv_time p)%float = true ->
  draws_ok p (Z.to_nat (number p)) (seed s) = true ->
  valid_run p s = true.
Proof.
  intros H1 H2 H3. unfold valid_run.
  now rewrite (positive_nonzero _ H1), (positive_nonzero _ H2), H3.
Qed.

Lemma draws_ok_means p p' n r :
  mean_ia_time p = mean_ia_time p' -> mean_srv_time p = mean_srv_time p' ->
  draws_ok p n r = draws_ok p' n r.
Proof.
  intros H1 H2. revert r. induction n as [|n IH]; intros r; cbn [draws_ok];
    [reflexivity|].
  rewrite H1, H2.
  destruct (expovariate (1 / mean_ia_time p') r) as [[ia|] r1];
    [|reflexivity].
  destruct (expovariate (1 / mean_srv_time p') r1) as [[srv|] r2];
    [|reflexivity].
  now rewrite IH.
Qed.

Lemma valid_run_means p p' s :
  mean_ia_time p = mean_ia_time p' -> mean_srv_time p = mean_srv_time p' ->
  number p = number p' -> valid_run p s = valid_run p' s.
Proof.
  intros H1 H2 H3. unfold valid_run. rewrite H1, H2, H3.
  f_equal. apply draws_ok_means; assumption.
Qed.

Lemma valid_run_any_capacity ia srv K K' n s :
  valid_run (traced ia srv K n) s = valid_run (traced ia srv K' n) s.
Proof. apply valid_run_means; reflexivity. Qed.

(** A traced run with valid parameters returns, from a final state that
    satisfies the invariant and has an empty schedule. *)
Lemma traced_run ia srv K n s g fuel :
  valid_run (traced ia srv K n) s = true -> enough fuel n ->
  exists w,
    run (traced ia srv K n) fuel (start s g) = Some (None, w) /\
    Inv (traced ia srv K n) w /\ queue w = [] /\
    runSimulation fuel ia srv K n s g
    = Some (Returned (np_mean (wait_times w)) (Z.of_nat (length (loss w))),
            random w).
Proof.
  intros Hv Hf. apply valid_run_spec in Hv. destruct Hv as [H1 [H2 H3]].
  destruct (run_completes (traced ia srv K n) H1 H2 eq_refl s g fuel H3 Hf)
    as [w [Hr [Hi Hq]]].
  exists w. split; [exact Hr|]. split; [exact Hi|]. split; [exact Hq|].
  unfold runSimulation, run_simulation. fold (traced ia srv K n).
  rewrite Hr. reflexivity.
Qed.

(** With no room nobody is accepted: everybody is dropped. *)
Lemma all_dropped ia srv K n s g fuel :
  K <= 0 -> valid_run (traced ia srv K n) s = true -> enough fuel n ->
  exists r, runSimulation fuel ia srv K n s g
            = Some (Returned nan (Z.max 0 n), r).
Proof.
  intros HK Hv Hf.
  destruct (traced_run ia srv K n s g fuel Hv Hf) as [w [Hr [Hi [Hq Hsim]]]].
  exists (random w). rewrite Hsim.
  destruct (ended _ w Hi Hq) as [_ [_ [_ [Harr [Hsplit Hgr]]]]].
  destruct Hi as [Hc _].
  destruct (no_grant (traced ia srv K n) (log w) HK (inv_log _ _ Hc)) as [Hw Hg].
  rewrite (inv_times _ _ Hc), Hw, np_mean_nil.
  rewrite (inv_loss _ _ Hc).
  specialize (Harr everyone). specialize (Hsplit everyone).
  specialize (Hgr everyone). rewrite Hg in Hgr. cbn [tally] in Hgr.
  rewrite span_everyone in Harr. cbn [traced number] in Harr.
  do 3 f_equal. lia.
Qed.

(** A run with the flag off and valid parameters returns [(NaN, 0)]: every
    customer is counted into [waiting] and ends there. *)
Lemma untraced_run ia srv K n s g fuel :
  valid_run (untraced ia srv K n) s = true -> enough fuel n ->
  exists w,
    run (untraced ia srv K n) fuel (start s g) = Some (None, w) /\
    run_simulation fuel ia srv K n s false g
    = Some (Returned nan 0, random w) /\
    Z.of_nat (length (waiting w)) = Z.max 0 n /\
    log w = [] /\ wait_times w = [] /\ loss w = [] /\ put_queue w = [].
Proof.
  intros Hv Hf.
  apply valid_run_spec in Hv. destruct Hv as [H1 [H2 H3]].
  destruct (run_terminates (untraced ia srv K n) fuel (start s g))
    as [[x w] Hr].
  { rewrite potential_start. exact Hf. }
  destruct (idle_run (untraced ia srv K n) H1 H2 eq_refl fuel _ _
              (idle_start _ s g H3) Hr) as [Hx [Hi Hq]].
  cbn [fst snd] in *. subst x. exists w.
  destruct Hi as [Hloss Htimes Hlog Hline _ _ _ Hcount].
  rewrite Hq in Hcount. cbn [qsum untraced number] in Hcount.
  split; [exact Hr|]. split.
  { unfold run_simulation. fold (untraced ia srv K n). rewrite Hr.
    unfold outcome_of. cbn [fst snd]. now rewrite Htimes, Hloss, np_mean_nil. }
  repeat split; auto. lia.
Qed.

End Results.

(** ** A scripted runtime

    A generator whose variates are listed in advance: seeding selects the
    list, and a draw takes its head (0 once the list is used up), which it
    returns unless the rate is zero: it raises then, as
    [random.expovariate] does.  NumPy's mean is the sum over the length, NaN
    for no elements. *)

Definition arithmetic_mean (l : list float) : float :=
  (fold_left PrimFloat.add l 0
   / PrimFloat.of_uint63 (Uint63.of_Z (Z.of_nat (length l))))%float.

Definition draw (lambd : float) (l : list float)
  : option float * list float :=
  let variate x := if (lambd =? 0)%float then None else Some x in
  match l with
  | [] => (variate 0%float, [])
  | x :: l' => (variate x, l')
  end.

Lemma draw_raises lambd l :
  fst (draw lambd l) = None <-> (lambd =? 0)%float = true.
Proof.
  unfold draw. destruct l; cbn [fst]; destruct (lambd =? 0)%float;
    split; intros H; try reflexivity; discriminate.
Qed.

Lemma arithmetic_mean_nil : arithmetic_mean [] = nan.
Proof. reflexivity. Qed.

Definition scripted (table : Z -> list float) : Runtime :=
  {| rng := list float; seed := table; expovariate := draw;
     expovariate_raises := draw_raises;
     np_mean := arithmetic_mean; np_mean_nil := arithmetic_mean_nil |}.

(** Five customers: gaps 1, 10, 1, 1, 1 and service times 10, 100, 0.5,
    0.5, 0.5. *)
Definition five (random_seed : Z) : list float :=
  [1; 10; 10; 100; 1; 0.5; 1; 0.5; 1; 0.5]%float.

(** The run of [five] with capacity 2: what it logs, the waits it records
    and the time at which it ends. *)
Example five_capacity_2 :
  option_map (fun r => (log (snd r), wait_times (snd r), now (snd r)))
    (run (R := scripted five) (traced 1 1 2 5) 40
       (start (R := scripted five) 0 []))
  = Some ([Arrived 0 0 1; Waited 0 0 0; Arrived 1 1 2; Served 10 0 10 1;
           Waited 10 1 9; Arrived 11 2 2; Arrived 12 3 3; Left 12 3 2;
           Arrived 13 4 3; Left 13 4 2; Served 110 1 100 1; Waited 110 2 99;
           Served 110.5 2 0.5 0]%float,
          [0; 9; 99]%float, 110.5%float).
Proof. vm_compute. reflexivity. Qed.

(** The same customers with capacity 1. *)
Example five_capacity_1 :
  option_map (fun r => (log (snd r), wait_times (snd r), now (snd r)))
    (run (R := scripted five) (traced 1 1 1 5) 40
       (start (R := scripted five) 0 []))
  = Some ([Arrived 0 0 1; Waited 0 0 0; Arrived 1 1 2; Left 1 1 1;
           Served 10 0 10 0; Arrived 11 2 1; Waited 11 2 0;
           Served 11.5 2 0.5 0; Arrived 12 3 1; Waited 12 3 0;
           Served 12.5 3 0.5 0; Arrived 13 4 1; Waited 13 4 0;
           Served 13.5 4 0.5 0]%float,
          [0; 0; 0; 0]%float, 14%float).
Proof. vm_compute. reflexivity. Qed.

(** An infinite mean time is not valid: the rate is 0 and the first draw
    raises [ZeroDivisionError], after the generator has advanced by one
    call of [random()]. *)
Example infinite_mean_not_valid :
  valid_run (R := scripted five) (traced infinity 1 0 1) 0 = false /\
  run_simulation (R := scripted five) 40 infinity 1 0 1 0 true []
  = Some (Raised ZeroDivisionError,
          [10; 10; 100; 1; 0.5; 1; 0.5; 1; 0.5]%float).
Proof. split; vm_compute; reflexivity. Qed.

(** The schedule of the five customers. *)
Example five_arrivals :
  arrivals (R := scripted five) (traced 1 1 2 5) 5 (five 0) (0 + 0)
  = [(0, 10); (1, 100); (11, 0.5); (12, 0.5); (13, 0.5)]%float.
Proof. vm_compute. reflexivity. Qed.

(** ** The claims *)

(** C2: with [systemCapacity = 0] and at least one customer, a run with
    valid parameters and the trace flag on drops every arrival, as the claim
    says: it returns [lossCount = numCustomers] and, no wait time being
    recorded, the mean of nothing, NaN.  The same call with the flag off
    drops nobody: the admission check of lines 41-43 is inside the
    [if trace:] of line 39, so each customer is counted into [waiting] and
    ends there, and the call returns [lossCount = 0]. *)
Theorem zero_capacity_loss_needs_trace {R : Runtime} ia srv n s g fuel :
  1 <= n -> valid_run (traced ia srv 0 n) s = true -> enough fuel n ->
  (exists r, runSimulation fuel ia srv 0 n s g = Some (Returned nan n, r)) /\
  exists w,
    run (untraced ia srv 0 n) fuel (start s g) = Some (None, w) /\
    run_simulation fuel ia srv 0 n s false g
    = Some (Returned nan 0, random w) /\
    Z.of_nat (length (waiting w)) = n /\ loss w = [] /\
    Z.of_nat (length (loss w)) <> n.
Proof.
  intros Hn Hv Hf. split.
  - destruct (all_dropped ia srv 0 n s g fuel (Z.le_refl 0) Hv Hf) as [r Hr].
    exists r. rewrite Hr. do 3 f_equal. lia.
  - assert (Hv' : valid_run (untraced ia srv 0 n) s = true)
      by (rewrite (valid_run_means _ (traced ia srv 0 n)); auto).
    destruct (untraced_run ia srv 0 n s g fuel Hv' Hf)
      as [w [Hr [Hsim [Hw [_ [_ [Hl _]]]]]]].
    exists w. split; [exact Hr|]. split; [exact Hsim|].
    split; [lia|]. split; [exact Hl|]. rewrite Hl. cbn [length]. lia.
Qed.

Lemma zero_capacity_loss_needs_trace_witness :
  (exists r, runSimulation (R := scripted five) 40 1 1 0 5 0 []
             = Some (Returned nan 5, r)) /\
  exists w,
    run (R := scripted five) (untraced 1 1 0 5) 40
      (start (R := scripted five) 0 []) = Some (None, w) /\
    run_simulation (R := scripted five) 40 1 1 0 5 0 false []
    = Some (Returned nan 0, random w) /\
    Z.of_nat (length (waiting w)) = 5 /\ loss w = [] /\
    Z.of_nat (length (loss w)) <> 5.
Proof.
  apply (zero_capacity_loss_needs_trace (R := scripted five) 1 1 5 0 [] 40).
  - lia.
  - reflexivity.
  - unfold enough. simpl. lia.
Defined.

(** C3: a call's outcome, and the state it leaves the generator in, are the
    same whatever state the generator of [random] was in before: line 60
    reseeds it, and the lists are fresh.  Two calls with the same arguments,
    one after the other or not, therefore return the same pair. *)
Theorem same_seed_same_outcome {R : Runtime} ia srv K n s t fuel :
  enough fuel n ->
  exists o r, forall g, run_simulation fuel ia srv K n s t g = Some (o, r).
Proof.
  intros Hf.
  set (p := {| mean_ia_time := ia; mean_srv_time := srv; system_capacity := K;
               number := n; trace := t |}).
  destruct (run_terminates p fuel (start s (seed 0))) as [r Hr].
  { rewrite potential_start. exact Hf. }
  exists (outcome_of r), (random (snd r)). intros g.
  unfold run_simulation. fold p.
  change (start s g) with (start s (seed 0)). now rewrite Hr.
Qed.

Lemma same_seed_same_outcome_witness :
  exists o r, forall g,
    run_simulation (R := scripted five) 40 1 1 2 5 0 true g = Some (o, r).
Proof.
  apply (same_seed_same_outcome (R := scripted five) 1 1 2 5 0 true 40).
  unfold enough. simpl. lia.
Defined.

(** C4: in a completed run with valid parameters and the trace flag on
    every customer ends either dropped or departed, and only one of the two,
    as the claim says: the losses and the departures add up to
    [numCustomers], and each of the customers [0 .. numCustomers - 1] is once
    in one of the two lists and not in the other; no one else is in them;
    the departed are as many as the wait times the run recorded.  The same
    run with the flag off completes as well, with nobody dropped and nobody
    departed, whatever the number of customers: lines 41-55 are inside the
    [if trace:] of line 39, and a customer ends after line 38. *)
Theorem conservation_needs_trace {R : Runtime} ia srv K n s g fuel :
  0 <= n -> valid_run (traced ia srv K n) s = true -> enough fuel n ->
  (exists w m r,
    run (traced ia srv K n) fuel (start s g) = Some (None, w) /\
    runSimulation fuel ia srv K n s g
    = Some (Returned m (Z.of_nat (length (loss w))), r) /\
    length (loss w) = length (dropped (log w)) /\
    length (wait_times w) = length (departed (log w)) /\
    Z.of_nat (length (loss w)) + Z.of_nat (length (departed (log w))) = n /\
    forall x,
      tally (Z.eqb x) (dropped (log w)) + tally (Z.eqb x) (departed (log w))
      = ind ((0 <=? x) && (x <? n))) /\
  exists w r,
    run (untraced ia srv K n) fuel (start s g) = Some (None, w) /\
    run_simulation fuel ia srv K n s false g = Some (Returned nan 0, r) /\
    loss w = [] /\ departed (log w) = [] /\ wait_times w = [] /\
    Z.of_nat (length (waiting w)) = n /\
    (1 <= n ->
     Z.of_nat (length (loss w)) + Z.of_nat (length (departed (log w))) <> n).
Proof.
  intros Hn Hv Hf. split.
  - destruct (traced_run ia srv K n s g fuel Hv Hf) as [w [Hr [Hi [Hq Hsim]]]].
    exists w, (np_mean (wait_times w)), (random w).
    destruct (ended _ w Hi Hq) as [_ [_ [_ [Harr [Hsplit Hgr]]]]].
    destruct Hi as [Hc _]. pose proof (inv_loss _ _ Hc) as Hl.
    rewrite tally_everyone in Hl.
    split; [exact Hr|]. split; [exact Hsim|]. split; [lia|]. split; [|split].
    + rewrite (inv_times _ _ Hc), length_waits.
      specialize (Hgr everyone). rewrite !tally_everyone in Hgr. lia.
    + pose proof (Harr everyone) as Ha. pose proof (Hsplit everyone) as Hs.
      rewrite span_everyone in Ha. rewrite !tally_everyone in *.
      cbn [traced number] in Ha. lia.
    + intros x. rewrite <- Hsplit, Harr, span_one. cbn [traced number].
      do 3 f_equal. lia.
  - assert (Hv' : valid_run (untraced ia srv K n) s = true)
      by (rewrite (valid_run_means _ (traced ia srv K n)); auto).
    destruct (untraced_run ia srv K n s g fuel Hv' Hf)
      as [w [Hr [Hsim [Hw [Hlog [Ht [Hl _]]]]]]].
    exists w, (random w). split; [exact Hr|]. split; [exact Hsim|].
    split; [exact Hl|]. split; [rewrite Hlog; reflexivity|].
    split; [exact Ht|]. split; [lia|].
    intros H1. rewrite Hl, Hlog. cbn [departed flat_map length]. lia.
Qed.

Lemma conservation_needs_trace_witness :
  (exists w m r,
    run (R := scripted five) (traced 1 1 2 5) 40
      (start (R := scripted five) 0 []) = Some (None, w) /\
    runSimulation (R := scripted five) 40 1 1 2 5 0 []
    = Some (Returned m (Z.of_nat (length (loss w))), r) /\
    length (loss w) = length (dropped (log w)) /\
    length (wait_times w) = length (departed (log w)) /\
    Z.of_nat (length (loss w)) + Z.of_nat (length (departed (log w))) = 5 /\
    forall x,
      tally (Z.eqb x) (dropped (log w)) + tally (Z.eqb x) (departed (log w))
      = ind ((0 <=? x) && (x <? 5))) /\
  exists w r,
    run (R := scripted five) (untraced 1 1 2 5) 40
      (start (R := scripted five) 0 []) = Some (None, w) /\
    run_simulation (R := scripted five) 40 1 1 2 5 0 false []
    = Some (Returned nan 0, r) /\
    loss w = [] /\ departed (log w) = [] /\ wait_times w = [] /\
    Z.of_nat (length (waiting w)) = 5 /\
    (1 <= 5 ->
     Z.of_nat (length (loss w)) + Z.of_nat (length (departed (log w))) <> 5).
Proof.
  apply (conservation_needs_trace (R := scripted five) 1 1 2 5 0 [] 40).
  - lia.
  - reflexivity.
  - unfold enough. simpl. lia.
Defined.

(** C5 as the specification states it: a larger capacity never loses more. *)
Definition monotone_in_capacity (R : Runtime) : Prop :=
  forall fuel ia srv n s g K1 K2 m1 l1 r1 m2 l2 r2,
    K1 <= K2 ->
    runSimulation fuel ia srv K1 n s g = Some (Returned m1 l1, r1) ->
    runSimulation fuel ia srv K2 n s g = Some (Returned m2 l2, r2) ->
    l2 <= l1.

(** C5 fails: with the variates of [five], capacity 1 drops only customer 1,
    while capacity 2 admits customer 1, whose long service then makes
    customers 3 and 4 find the system full. *)
Lemma capacity_monotonicity_counterexample :
  ~ monotone_in_capacity (scripted five).
Proof.
  intros H.
  specialize (H 40%nat 1%float 1%float 5 0 [] 1 2 0%float 1 [] 36%float 2 []).
  assert (Hle : 2 <= 1) by (apply H; [lia|reflexivity|reflexivity]).
  lia.
Qed.

(** C5, amended: for [runSimulation], the call with the trace flag at its
    default, and valid parameters, the loss count of any capacity lies
    between those of the two extremes.  Capacity 0 loses all
    [numCustomers]; any capacity loses at most that many; a capacity of at
    least [numCustomers] loses nobody. *)
Theorem loss_between_extremes {R : Runtime} ia srv K Kbig n s g fuel :
  0 <= n -> n <= Kbig ->
  valid_run (traced ia srv K n) s = true -> enough fuel n ->
  exists m l r m' r' r0,
    runSimulation fuel ia srv K n s g = Some (Returned m l, r) /\
    0 <= l <= n /\
    runSimulation fuel ia srv 0 n s g = Some (Returned nan n, r0) /\
    runSimulation fuel ia srv Kbig n s g = Some (Returned m' 0, r').
Proof.
  intros Hn Hbig Hv Hf.
  assert (Hv0 : valid_run (traced ia srv 0 n) s = true)
    by (rewrite (valid_run_any_capacity ia srv 0 K); exact Hv).
  assert (Hvb : valid_run (traced ia srv Kbig n) s = true)
    by (rewrite (valid_run_any_capacity ia srv Kbig K); exact Hv).
  destruct (traced_run ia srv K n s g fuel Hv Hf) as [w [Hr [Hi [Hq Hsim]]]].
  destruct (traced_run ia srv Kbig n s g fuel Hvb Hf)
    as [w' [Hr' [Hi' [Hq' Hsim']]]].
  destruct (all_dropped ia srv 0 n s g fuel (Z.le_refl 0) Hv0 Hf) as [r0 H0].
  exists (np_mean (wait_times w)), (Z.of_nat (length (loss w))), (random w),
    (np_mean (wait_times w')), (random w'), r0.
  split; [exact Hsim|]. split; [|split].
  - destruct (ended _ w Hi Hq) as [_ [_ [_ [Harr [Hsplit _]]]]].
    destruct Hi as [Hc _]. pose proof (inv_loss _ _ Hc) as Hl.
    pose proof (Harr everyone) as Ha. pose proof (Hsplit everyone) as Hs.
    pose proof (tally_nonneg everyone (departed (log w))).
    rewrite span_everyone in Ha. cbn [traced number] in Ha. lia.
  - rewrite H0. do 3 f_equal. lia.
  - rewrite Hsim'. destruct Hi' as [Hc' _].
    rewrite (inv_roomy _ _ Hc'); [reflexivity|].
    cbn [traced number system_capacity]. lia.
Qed.

Lemma loss_between_extremes_witness :
  exists m l r m' r' r0,
    runSimulation (R := scripted five) 40 1 1 2 5 0 [] = Some (Returned m l, r) /\
    0 <= l <= 5 /\
    runSimulation (R := scripted five) 40 1 1 0 5 0 []
    = Some (Returned nan 5, r0) /\
    runSimulation (R := scripted five) 40 1 1 7 5 0 []
    = Some (Returned m' 0, r').
Proof.
  apply (loss_between_extremes (R := scripted five) 1 1 2 7 5 0 [] 40).
  - lia.
  - lia.
  - reflexivity.
  - unfold enough. simpl. lia.
Defined.

(** C6: after any number of steps of a run with valid parameters, a
    capacity [K >= 0] and the trace flag on, the occupancy counter is as the
    claim says: it is at most [K]; every value it took on the way (the log
    has one after each change) is at most [K + 1]; an arrival that raised it
    above [K] is followed at once by its own drop, at one less; and a
    customer that arrived and was not dropped arrived at an occupancy of at
    most [K].  With the flag off the counter is not bounded: line 38 counts
    every customer in, and the check of line 41 and the decrement of line 54
    are inside the [if trace:] of lines 39 and 53, so that the run ends with
    the counter at [numCustomers], above [K + 1] when there are more
    customers than that. *)
Theorem occupancy_bound_needs_trace {R : Runtime} ia srv K n s g steps w fuel :
  0 <= K -> valid_run (traced ia srv K n) s = true ->
  after (traced ia srv K n) steps (start s g) = Some w ->
  enough fuel n ->
  (Z.of_nat (length (waiting w)) <= K /\
   Forall (fun o => forall m, occupancy o = Some m -> 0 <= m <= K + 1)
     (log w) /\
   drops_paired (traced ia srv K n) (log w) = true /\
   forall a x m,
     In (Arrived a x m) (log w) -> ~ In x (dropped (log w)) -> m <= K) /\
  exists w',
    run (untraced ia srv K n) fuel (start s g) = Some (None, w') /\
    Z.of_nat (length (waiting w')) = Z.max 0 n /\
    (K + 1 < n -> K + 1 < Z.of_nat (length (waiting w'))).
Proof.
  intros HK Hv Ha Hf. split.
  - apply valid_run_spec in Hv. destruct Hv as [H1 [H2 H3]].
    pose proof (after_inv (traced ia srv K n) H1 H2 eq_refl steps _ w
                  (inv_start _ s g H3) Ha) as [Hc _].
    pose proof (inv_bound _ _ Hc) as Hb. pose proof (inv_log _ _ Hc) as Hl.
    pose proof (inv_paired _ _ Hc) as Hp.
    cbn [traced system_capacity] in Hb.
    repeat split; auto.
    + lia.
    + revert Hl. apply Forall_impl. intros o Ho m Hm.
      destruct o; cbn [entry_ok occupancy traced system_capacity] in *;
        try discriminate; injection Hm as <-; lia.
    + intros a x m Hin Hnot.
      destruct (Z.le_gt_cases m K) as [Hm|Hm]; [exact Hm|].
      exfalso. apply Hnot.
      apply (paired_dropped (traced ia srv K n) (log w) a x m Hp Hin).
      cbn [traced system_capacity]. lia.
  - assert (Hv' : valid_run (untraced ia srv K n) s = true)
      by (rewrite (valid_run_means _ (traced ia srv K n)); auto).
    destruct (untraced_run ia srv K n s g fuel Hv' Hf) as [w' [Hr [_ [Hw _]]]].
    exists w'. split; [exact Hr|]. split; [exact Hw|]. lia.
Qed.

Lemma occupancy_bound_needs_trace_witness :
  exists w,
    after (R := scripted five) (traced 1 1 2 5) 9
      (start (R := scripted five) 0 []) = Some w /\
    (Z.of_nat (length (waiting w)) <= 2 /\
     Forall (fun o => forall m, occupancy o = Some m -> 0 <= m <= 2 + 1)
       (log w) /\
     drops_paired (traced 1 1 2 5) (log w) = true /\
     forall a x m,
       In (Arrived a x m) (log w) -> ~ In x (dropped (log w)) -> m <= 2) /\
    exists w',
      run (R := scripted five) (untraced 1 1 2 5) 40
        (start (R := scripted five) 0 []) = Some (None, w') /\
      Z.of_nat (length (waiting w')) = Z.max 0 5 /\
      (2 + 1 < 5 -> 2 + 1 < Z.of_nat (length (waiting w'))).
Proof.
  eexists. split; [vm_compute; reflexivity|].
  apply (occupancy_bound_needs_trace (R := scripted five) 1 1 2 5 0 [] 9 _ 40).
  - lia.
  - reflexivity.
  - vm_compute. reflexivity.
  - unfold enough. simpl. lia.
Defined.

(** C7: at the grant [packet] appends [now - arrv_time] to the wait times and
    only then schedules its service timeout.  In a completed run with valid
    parameters and the trace flag on, the wait times are those of the
    grants, in order; each is the time of the grant minus the time at which
    that customer arrived; every customer arrived once, and was either
    dropped, and then never granted the server nor served, or granted it
    exactly once.  With the flag off no customer reaches the admission
    check: nobody is admitted or dropped, nobody asks for the server, and no
    wait time is recorded. *)
Theorem one_wait_per_customer {R : Runtime} ia srv K n s g fuel :
  valid_run (traced ia srv K n) s = true -> enough fuel n ->
  (forall w x service_time arrv_time,
      (service_time <? 0)%float = false ->
      packet_granted x service_time arrv_time w
      = schedule (Timeout (GPacketSrv x service_time arrv_time)) NORMAL
          service_time
          (say (Waited (now w) x (now w - arrv_time)%float)
             (set_wait_times (wait_times w ++ [(now w - arrv_time)%float]) w)))
  /\
  (exists w,
    run (traced ia srv K n) fuel (start s g) = Some (None, w) /\
    wait_times w = waits (log w) /\
    (forall t x d, In (Waited t x d) (log w) ->
       exists a m, In (Arrived a x m) (log w) /\ d = (t - a)%float) /\
    forall x, 0 <= x < n ->
      tally (Z.eqb x) (arrived (log w)) = 1 /\
      tally (Z.eqb x) (granted (log w))
      = 1 - tally (Z.eqb x) (dropped (log w)) /\
      tally (Z.eqb x) (departed (log w)) = tally (Z.eqb x) (granted (log w)) /\
      0 <= tally (Z.eqb x) (dropped (log w)) <= 1)
  /\
  exists w,
    run (untraced ia srv K n) fuel (start s g) = Some (None, w) /\
    log w = [] /\ wait_times w = [] /\ loss w = [] /\ put_queue w = [].
Proof.
  intros Hv Hf. split; [|split].
  { intros w x sv a Hs. unfold packet_granted, timeout.
    cbn [say set_wait_times now]. now rewrite Hs. }
  { destruct (traced_run ia srv K n s g fuel Hv Hf) as [w [Hr [Hi [Hq _]]]].
    exists w.
    destruct (ended _ w Hi Hq) as [_ [_ [_ [Harr [Hsplit Hgr]]]]].
    destruct Hi as [Hc _].
    split; [exact Hr|]. split; [exact (inv_times _ _ Hc)|]. split.
    - intros t x d Hin. pose proof (inv_log _ _ Hc) as Hl.
      rewrite Forall_forall in Hl. destruct (Hl _ Hin) as [a [m [Ha [_ Hd]]]].
      exists a, m. auto.
    - intros x Hx. specialize (Harr (Z.eqb x)). specialize (Hsplit (Z.eqb x)).
      specialize (Hgr (Z.eqb x)). rewrite span_one in Harr.
      cbn [traced number] in Harr.
      replace ((0 <=? x) && (x <? 0 + Z.of_nat (Z.to_nat n))) with true in Harr
        by (symmetry; apply andb_true_intro; split;
            [apply Z.leb_le|apply Z.ltb_lt]; lia).
      cbn [ind] in Harr.
      pose proof (tally_nonneg (Z.eqb x) (dropped (log w))).
      pose proof (tally_nonneg (Z.eqb x) (departed (log w))).
      lia. }
  assert (Hv' : valid_run (untraced ia srv K n) s = true)
    by (rewrite (valid_run_means _ (traced ia srv K n)); auto).
  destruct (untraced_run ia srv K n s g fuel Hv' Hf)
    as [w [Hr [_ [_ [Hlog [Ht [Hl Hp]]]]]]].
  exists w. split; [exact Hr|]. split; [exact Hlog|]. split; [exact Ht|].
  split; [exact Hl|exact Hp].
Qed.

Lemma one_wait_per_customer_witness :
  (exists w,
    run (R := scripted five) (traced 1 1 2 5) 40
      (start (R := scripted five) 0 []) = Some (None, w) /\
    wait_times w = waits (log w) /\
    (forall t x d, In (Waited t x d) (log w) ->
       exists a m, In (Arrived a x m) (log w) /\ d = (t - a)%float) /\
    forall x, 0 <= x < 5 ->
      tally (Z.eqb x) (arrived (log w)) = 1 /\
      tally (Z.eqb x) (granted (log w))
      = 1 - tally (Z.eqb x) (dropped (log w)) /\
      tally (Z.eqb x) (departed (log w)) = tally (Z.eqb x) (granted (log w)) /\
      0 <= tally (Z.eqb x) (dropped (log w)) <= 1)
  /\
  exists w,
    run (R := scripted five) (untraced 1 1 2 5) 40
      (start (R := scripted five) 0 []) = Some (None, w) /\
    log w = [] /\ wait_times w = [] /\ loss w = [] /\ put_queue w = [].
Proof.
  apply (one_wait_per_customer (R := scripted five) 1 1 2 5 0 [] 40).
  - reflexivity.
  - unfold enough. simpl. lia.
Defined.









(** What the flag changes in a run that has room: with the variates of
    [five] and capacity 2, the traced call loses two customers and returns a
    mean wait of 36; the same call with the flag off loses none and has no
    wait to average. *)
Example trace_flag_example :
  run_simulation (R := scripted five) 40 1 1 2 5 0 true []
  = Some (Returned 36 2, []) /\
  run_simulation (R := scripted five) 40 1 1 2 5 0 false []
  = Some (Returned nan 0, []).
Proof. split; vm_compute; reflexivity. Qed.

(** C1 does not hold of the code: the admission check, the loss record, the
    request to the server and the decrement at departure are all inside
    [if trace:].  With capacity 0 and at least one customer, whatever the
    variates, the traced call returns [lossCount = numCustomers] and the same
    call with the flag off returns [lossCount = 0]. *)
Theorem trace_flag_changes_outcome {R : Runtime} ia srv n s g fuel :
  1 <= n -> valid_run (traced ia srv 0 n) s = true -> enough fuel n ->
  exists r r',
    run_simulation fuel ia srv 0 n s true g = Some (Returned nan n, r) /\
    run_simulation fuel ia srv 0 n s false g = Some (Returned nan 0, r') /\
    Returned nan n <> Returned nan 0.
Proof.
  intros Hn Hv Hf.
  assert (Hv' : valid_run (untraced ia srv 0 n) s = true)
    by (rewrite (valid_run_means _ (traced ia srv 0 n)); auto).
  destruct (all_dropped ia srv 0 n s g fuel (Z.le_refl 0) Hv Hf) as [r Hr].
  destruct (untraced_run ia srv 0 n s g fuel Hv' Hf) as [w [_ [Hsim _]]].
  exists r, (random w). split; [|split].
  - unfold runSimulation in Hr. rewrite Hr. do 3 f_equal. lia.
  - exact Hsim.
  - intros H. injection H. lia.
Qed.

Lemma trace_flag_changes_outcome_witness :
  exists r r',
    run_simulation (R := scripted five) 40 1 1 0 1 0 true []
    = Some (Returned nan 1, r) /\
    run_simulation (R := scripted five) 40 1 1 0 1 0 false []
    = Some (Returned nan 0, r') /\
    Returned nan 1 <> Returned nan 0.
Proof.
  apply (trace_flag_changes_outcome (R := scripted five) 1 1 1 0 [] 40).
  - lia.
  - reflexivity.
  - unfold enough. simpl. lia.
Defined.

(** ** Further properties of the simulation *)

Section Reached.

Context {R : Runtime}.

(** Every state a traced run with valid parameters passes through satisfies
    the invariant. *)
Lemma reached_inv ia srv K n s g steps w :
  valid_run (traced ia srv K n) s = true ->
  after (traced ia srv K n) steps (start s g) = Some w ->
  Inv (traced ia srv K n) w.
Proof.
  intros Hv Ha. apply valid_run_spec in Hv. destruct Hv as [H1 [H2 H3]].
  exact (after_inv (traced ia srv K n) H1 H2 eq_refl steps _ w
           (inv_start _ s g H3) Ha).
Qed.

Lemma releasing_pending q : 0 < qsum releasing q -> In Release (map snd q).
Proof.
  induction q as [|[k e] q IH]; cbn [qsum map snd]; [lia|].
  intros H. destruct e; cbn [releasing] in H;
    try (right; apply IH; lia). left. reflexivity.
Qed.

End Reached.

(** X1: the server holds one customer at most, and the counter [waiting]
    that the admission check reads is the number of customers that wait for
    the server or hold it, at every state of a traced run. *)
Theorem server_exclusive {R : Runtime} ia srv K n s g steps w :
  valid_run (traced ia srv K n) s = true ->
  after (traced ia srv K n) steps (start s g) = Some w ->
  (length (users w) <= 1)%nat /\
  length (waiting w) = (length (put_queue w) + length (users w))%nat.
Proof.
  intros Hv Ha. destruct (reached_inv ia srv K n s g steps w Hv Ha) as [Hc _].
  pose proof (inv_cap _ _ Hc) as Hcap. pose proof (inv_occ _ _ Hc) as Hocc.
  pose proof (inv_users _ _ Hc everyone) as Hu. rewrite tally_everyone in Hu.
  split; lia.
Qed.

Lemma server_exclusive_witness :
  exists w,
    after (R := scripted five) (traced 1 1 2 5) 9
      (start (R := scripted five) 0 []) = Some w /\
    (length (users w) <= 1)%nat /\
    length (waiting w) = (length (put_queue w) + length (users w))%nat.
Proof.
  eexists. split; [vm_compute; reflexivity|].
  apply (server_exclusive (R := scripted five) 1 1 2 5 0 [] 9).
  - reflexivity.
  - vm_compute. reflexivity.
Defined.

(** X2: nobody waits for an idle server.  While a request is in the
    server's queue, either a customer holds the server or the release that
    will hand it over is pending in the schedule. *)
Theorem server_never_idle_with_queue {R : Runtime} ia srv K n s g steps w :
  valid_run (traced ia srv K n) s = true ->
  after (traced ia srv K n) steps (start s g) = Some w ->
  put_queue w <> [] ->
  users w <> [] \/ In Release (map snd (queue w)).
Proof.
  intros Hv Ha Hq. destruct (reached_inv ia srv K n s g steps w Hv Ha) as [_ Hl].
  specialize (Hl Hq).
  destruct (users w) as [|u us]; [right|left; discriminate].
  apply releasing_pending. cbn [length] in Hl. lia.
Qed.

Lemma server_never_idle_with_queue_witness :
  exists w,
    after (R := scripted five) (traced 1 1 2 5) 6
      (start (R := scripted five) 0 []) = Some w /\
    put_queue w <> [] /\
    (users w <> [] \/ In Release (map snd (queue w))).
Proof.
  eexists. split; [vm_compute; reflexivity|].
  split; [discriminate|].
  apply (server_never_idle_with_queue (R := scripted five) 1 1 2 5 0 [] 6).
  - reflexivity.
  - vm_compute. reflexivity.
  - discriminate.
Defined.







(** ** What a run takes from the generator *)

(** The state of the generator after the variates of [n] customers have been
    drawn from state [r]: a gap and a service time each, in this order. *)
Fixpoint drawn {R : Runtime} (ia srv : float) (n : nat) (r : rng) : rng :=
  match n with
  | O => r
  | S n' =>
      let (_, r1) := expovariate (1 / ia)%float r in
      let (_, r2) := expovariate (1 / srv)%float r1 in
      drawn ia srv n' r2
  end.

Section Consumption.

Context {R : Runtime}.
Variable p : params.
Variable F : rng.

Hypothesis Hia : (mean_ia_time p =? 0)%float = false.
Hypothesis Hsrv : (mean_srv_time p =? 0)%float = false.

Definition fed_event (r : rng) (ke : key * event) : Prop :=
  match frame (snd ke) with
  | Some (GSource i) =>
      draws_ok p (Z.to_nat (number p - i)) r = true /\
      drawn (mean_ia_time p) (mean_srv_time p) (Z.to_nat (number p - i)) r = F
  | _ => True
  end.

(** While the source is pending the generator is as many draws away from
    [F] as there are customers left; afterwards it is at [F]. *)
Record Fed (w : world) : Prop := {
  fed_source : qsum sourcing (queue w) <= 1;
  fed_events : Forall (fed_event (random w)) (queue w);
  fed_line : Forall (fun g => sourcing (Request g) = 0) (put_queue w);
  fed_done : qsum sourcing (queue w) <= 0 -> random w = F
}.

Lemma fed_random r r' q :
  qsum sourcing q <= 0 -> Forall (fed_event r) q -> Forall (fed_event r') q.
Proof.
  induction q as [|[k e] q IH]; intros Hs Hq; [constructor|].
  inversion Hq as [|? ? He Hq']; subst. cbn [qsum] in Hs.
  pose proof (sourcing_nonneg e).
  pose proof (qsum_nonneg sourcing q sourcing_nonneg).
  constructor; [|apply IH; auto; lia].
  unfold fed_event, sourcing in *. cbn [snd] in *.
  destruct (frame e) as [[]|]; auto. lia.
Qed.

Lemma fed_same w w' :
  random w' = random w -> queue w' = queue w -> put_queue w' = put_queue w ->
  Fed w -> Fed w'.
Proof.
  intros Hr Hq Hp [H1 H2 H3 H4]. constructor; rewrite ?Hr, ?Hq, ?Hp; auto.
Qed.

Lemma fed_schedule e pr d w :
  Fed w -> sourcing e = 0 -> Fed (schedule e pr d w).
Proof.
  intros [H1 H2 H3 H4] He. unfold schedule.
  constructor; cbn [set_queue queue random put_queue]; rewrite ?qsum_heappush;
    auto.
  - lia.
  - apply Forall_heappush; auto. unfold fed_event, sourcing in *.
    cbn [snd]. destruct (frame e) as [[]|]; auto. lia.
  - intros H. apply H4. lia.
Qed.

Lemma fed_finish w : Fed w -> Fed (finish w).
Proof. intros H. now apply fed_schedule. Qed.

Lemma fed_fail x w : Fed w -> Fed (fail x w).
Proof. intros H. now apply fed_schedule. Qed.

Lemma fed_trigger_put w : Fed w -> Fed (trigger_put w).
Proof.
  intros H. unfold trigger_put.
  destruct (put_queue w) as [|r rest] eqn:Hline; [exact H|].
  destruct (Z.of_nat (length (users w)) <? 1); [|exact H].
  pose proof (fed_line _ H) as Hl. rewrite Hline in Hl.
  inversion Hl as [|? ? Hr Hrest]; subst.
  apply fed_schedule; [|exact Hr].
  destruct H as [H1 H2 H3 H4]. constructor; cbn; auto.
Qed.

Lemma fed_release x w : Fed w -> Fed (release x w).
Proof.
  intros H. unfold release. apply fed_schedule; [|reflexivity].
  revert H. apply fed_same; reflexivity.
Qed.

Lemma fed_packet x sv w : Fed w -> Fed (packet p x sv w).
Proof.
  intros H. unfold packet. destruct (trace p).
  - match goal with |- context [if ?c then _ else _] => destruct c end.
    + apply fed_finish. revert H. apply fed_same; reflexivity.
    + unfold request. apply fed_trigger_put.
      destruct H as [H1 H2 H3 H4]. constructor; cbn; auto.
      apply Forall_app. split; auto.
  - apply fed_finish. revert H. apply fed_same; reflexivity.
Qed.

Lemma fed_packet_granted x sv a w : Fed w -> Fed (packet_granted x sv a w).
Proof.
  intros H. unfold packet_granted, timeout.
  match goal with |- context [release x ?w'] =>
    assert (H' : Fed w') by (revert H; apply fed_same; reflexivity)
  end.
  destruct (sv <? 0)%float.
  - apply fed_fail, fed_release. exact H'.
  - apply fed_schedule; [exact H'|reflexivity].
Qed.

Lemma fed_packet_served x sv a w : Fed w -> Fed (packet_served p x sv a w).
Proof.
  intros H. unfold packet_served. destruct (trace p).
  - destruct (waiting w); [apply fed_fail, fed_release; exact H|].
    apply fed_finish, fed_release. revert H. apply fed_same; reflexivity.
  - apply fed_finish, fed_release. exact H.
Qed.

Lemma fed_source_step i w :
  qsum sourcing (queue w) <= 0 ->
  Forall (fed_event (random w)) (queue w) ->
  Forall (fun g => sourcing (Request g) = 0) (put_queue w) ->
  draws_ok p (Z.to_nat (number p - i)) (random w) = true ->
  drawn (mean_ia_time p) (mean_srv_time p) (Z.to_nat (number p - i)) (random w)
  = F ->
  Fed (source p i w).
Proof.
  intros Hs Hq Hl Hok Hdr. unfold source.
  pose proof (qsum_nonneg sourcing (queue w) sourcing_nonneg) as Hnq.
  destruct (Z.ltb_spec i (number p)) as [Hlt|Hge].
  2:{ replace (Z.to_nat (number p - i)) with O in Hdr by lia.
      cbn [drawn] in Hdr. apply fed_finish. constructor; auto. lia. }
  rewrite Hia.
  replace (Z.to_nat (number p - i))
    with (S (Z.to_nat (number p - (i + 1)))) in Hok, Hdr by lia.
  cbn [draws_ok drawn] in Hok, Hdr.
  destruct (expovariate (1 / mean_ia_time p) (random w)) as [[ia|] r1];
    [|discriminate].
  cbn [set_random random]. rewrite Hsrv.
  destruct (expovariate (1 / mean_srv_time p) r1) as [[srv|] r2];
    [|discriminate].
  apply andb_prop in Hok. destruct Hok as [Hok Hrest].
  apply andb_prop in Hok. destruct Hok as [Hia' _].
  apply negb_true_iff in Hia'.
  unfold timeout. rewrite Hia'.
  unfold schedule, process, schedule.
  constructor; cbn [set_queue set_random queue random put_queue];
    rewrite ?qsum_heappush; cbn [sourcing frame]; auto.
  - lia.
  - repeat apply Forall_heappush; unfold fed_event; cbn [snd frame]; auto.
    eapply fed_random; eauto.
  - lia.
Qed.

Lemma fed_step w :
  Fed w ->
  match step p w with
  | EmptySchedule => True
  | Raise _ w' | Next w' => Fed w'
  end.
Proof.
  intros H. unfold step.
  destruct (queue w) as [|[[[t pr] n] e] q] eqn:Hqueue; [exact I|].
  pose proof (fed_source _ H) as Hle. pose proof (fed_events _ H) as Hq.
  pose proof (fed_done _ H) as Hd. pose proof (fed_line _ H) as Hl.
  rewrite Hqueue in *.
  inversion Hq as [|? ? He Hrest]; subst. cbn [qsum] in Hle, Hd.
  pose proof (qsum_nonneg sourcing q sourcing_nonneg) as Hnq.
  pose proof (sourcing_nonneg e) as Hne.
  set (w0 := set_now t (set_queue q (eid w) w)).
  assert (H0 : sourcing e = 0 -> Fed w0).
  { intros He0. constructor; cbn; auto; [lia|]. intros Hs. apply Hd. lia. }
  assert (Hsrc : forall i, frame e = Some (GSource i) -> Fed (source p i w0)).
  { intros i Hf. unfold fed_event in He. cbn [snd] in He. rewrite Hf in He.
    destruct He as [Hok Hdr].
    assert (Hone : sourcing e = 1) by (unfold sourcing; now rewrite Hf).
    apply fed_source_step; cbn; auto. lia. }
  assert (Hc : Fed (callbacks p e w0)).
  { destruct e as [g|g|g| |x]; cbn [callbacks];
      try (destruct g; cbn [resume];
           [apply Hsrc; reflexivity
           |apply fed_packet, H0; reflexivity
           |apply fed_packet_granted, H0; reflexivity
           |apply fed_packet_served, H0; reflexivity]).
    - apply fed_trigger_put, H0. reflexivity.
    - apply H0. reflexivity. }
  destruct e as [| | | |[x|]]; exact Hc.
Qed.

Lemma fed_run fuel w r : Fed w -> run p fuel w = Some r -> Fed (snd r).
Proof.
  revert w. induction fuel as [|fuel IH]; intros w H Hr; cbn [run] in Hr;
    [discriminate|].
  pose proof (fed_step w H) as Hs.
  destruct (step p w).
  - injection Hr as <-. exact H.
  - injection Hr as <-. exact Hs.
  - eauto.
Qed.

End Consumption.

Lemma fed_start {R : Runtime} p s g :
  draws_ok p (Z.to_nat (number p)) (seed s) = true ->
  Fed p (drawn (mean_ia_time p) (mean_srv_time p) (Z.to_nat (number p)) (seed s))
    (start s g).
Proof.
  intros Hd. unfold start, process, schedule.
  constructor; cbn; auto; try lia.
  apply Forall_cons; [|apply Forall_nil].
  unfold fed_event. cbn [snd frame]. rewrite Z.sub_0_r. auto.
Qed.

(** A run that returns has emptied the schedule. *)
Lemma run_returns_empty {R : Runtime} p fuel w w' :
  run p fuel w = Some (None, w') -> queue w' = [].
Proof.
  revert w. induction fuel as [|fuel IH]; intros w Hr; cbn [run] in Hr;
    [discriminate|].
  pose proof (potential_step p w) as Hs.
  destruct (step p w); try discriminate; eauto.
  injection Hr as <-. exact Hs.
Qed.

(** X5: a run with valid parameters takes exactly the variates of its
    [numCustomers] customers from the generator, a gap and a service time
    each, and leaves it in the state after these draws, the same for every
    capacity and with the trace flag on or off. *)
Theorem generator_consumption {R : Runtime} ia srv K n s t g fuel :
  valid_run {| mean_ia_time := ia; mean_srv_time := srv; system_capacity := K;
               number := n; trace := t |} s = true ->
  enough fuel n ->
  exists m l,
    run_simulation fuel ia srv K n s t g
    = Some (Returned m l, drawn ia srv (Z.to_nat n) (seed s)).
Proof.
  intros Hv Hf.
  set (p := {| mean_ia_time := ia; mean_srv_time := srv; system_capacity := K;
               number := n; trace := t |}) in *.
  assert (Hrun : exists w, run p fuel (start s g) = Some (None, w)).
  { destruct t.
    - destruct (traced_run ia srv K n s g fuel Hv Hf) as [w [Hr _]]. eauto.
    - destruct (untraced_run ia srv K n s g fuel Hv Hf) as [w [Hr _]]. eauto. }
  destruct Hrun as [w Hr].
  apply valid_run_spec in Hv. destruct Hv as [H1 [H2 H3]].
  pose proof (fed_run p _ H1 H2 fuel _ _ (fed_start p s g H3) Hr) as Hfed.
  cbn [snd] in Hfed.
  pose proof (run_returns_empty p fuel _ _ Hr) as Hq.
  pose proof (fed_done _ _ _ Hfed) as Hd. rewrite Hq in Hd. cbn [qsum] in Hd.
  exists (np_mean (wait_times w)), (Z.of_nat (length (loss w))).
  unfold run_simulation. fold p. rewrite Hr. unfold outcome_of. cbn [fst snd].
  rewrite Hd by lia. reflexivity.
Qed.

Lemma generator_consumption_witness :
  exists m l,
    run_simulation (R := scripted five) 40 1 1 2 3 0 true []
    = Some (Returned m l,
            drawn (R := scripted five) 1 1 (Z.to_nat 3) (five 0)).
Proof.
  apply (generator_consumption (R := scripted five) 1 1 2 3 0 true [] 40).
  - reflexivity.
  - unfold enough. simpl. lia.
Defined.

(** ** Service takes the service time *)

Section Service.

Context {R : Runtime}.
Variable p : params.

(** A customer in service was granted the server at some time, and the
    timeout that ends its service is due one service time later. *)
Definition due (l : list obs) (t : float) (x : Z) (sv : float) : Prop :=
  exists gt d, In (Waited gt x d) l /\ t = (gt + sv)%float.

Definition due_event (l : list obs) (ke : key * event) : Prop :=
  match frame (snd ke) with
  | Some (GPacketSrv x sv _) => due l (fst (fst (fst ke))) x sv
  | _ => True
  end.

Definition due_line (g : gen) : Prop :=
  match g with
  | GPacketSrv _ _ _ => False
  | _ => True
  end.

Definition due_entry (l : list obs) (o : obs) : Prop :=
  match o with
  | Served t x sv _ => due l t x sv
  | _ => True
  end.

Record Punctual (w : world) : Prop := {
  punctual_queue : Forall (due_event (log w)) (queue w);
  punctual_line : Forall due_line (put_queue w);
  punctual_log : Forall (due_entry (log w)) (log w)
}.

Lemma due_grow l o t x sv : due l t x sv -> due (l ++ [o]) t x sv.
Proof.
  intros [gt [d [Hin Ht]]]. exists gt, d. split; [|exact Ht].
  apply in_or_app. left. exact Hin.
Qed.

Lemma punctual_same w w' :
  log w' = log w -> queue w' = queue w -> put_queue w' = put_queue w ->
  Punctual w -> Punctual w'.
Proof.
  intros Hl Hq Hp [H1 H2 H3]. constructor; rewrite ?Hl, ?Hq, ?Hp; auto.
Qed.

Lemma punctual_schedule e pr d w :
  Punctual w -> due_event (log w) ((now w + d)%float, pr, eid w, e) ->
  Punctual (schedule e pr d w).
Proof.
  intros [H1 H2 H3] He. unfold schedule. constructor; cbn; auto.
  apply Forall_heappush; auto.
Qed.

Lemma punctual_finish w : Punctual w -> Punctual (finish w).
Proof. intros H. apply punctual_schedule; [exact H|exact I]. Qed.

Lemma punctual_fail x w : Punctual w -> Punctual (fail x w).
Proof. intros H. apply punctual_schedule; [exact H|exact I]. Qed.

Lemma punctual_say o w :
  Punctual w -> due_entry (log w ++ [o]) o -> Punctual (say o w).
Proof.
  intros [H1 H2 H3] Ho. constructor; cbn; auto.
  - revert H1. apply Forall_impl. intros [k e]. unfold due_event. cbn [snd].
    destruct (frame e) as [[]|]; auto. apply due_grow.
  - apply Forall_app. split; [|constructor; auto].
    revert H3. apply Forall_impl. intros o'. destruct o'; cbn; auto.
    apply due_grow.
Qed.

Lemma punctual_trigger_put w : Punctual w -> Punctual (trigger_put w).
Proof.
  intros H. unfold trigger_put.
  destruct (put_queue w) as [|r rest] eqn:Hline; [exact H|].
  destruct (Z.of_nat (length (users w)) <? 1); [|exact H].
  pose proof (punctual_line _ H) as Hp. rewrite Hline in Hp.
  inversion Hp as [|? ? Hr Hrest]; subst.
  apply punctual_schedule.
  - destruct H as [H1 H2 H3]. constructor; cbn; auto.
  - unfold due_event. cbn. destruct r; auto. contradiction.
Qed.

Lemma punctual_release x w : Punctual w -> Punctual (release x w).
Proof.
  intros H. unfold release. apply punctual_schedule; [|exact I].
  revert H. apply punctual_same; reflexivity.
Qed.

Lemma punctual_packet x sv w : Punctual w -> Punctual (packet p x sv w).
Proof.
  intros H. unfold packet.
  assert (H1 : Punctual (set_waiting (waiting w ++ [1]) w))
    by (revert H; apply punctual_same; reflexivity).
  destruct (trace p); [|apply punctual_finish; exact H1].
  cbn [set_waiting waiting now].
  match goal with |- context [say ?o ?w'] =>
    assert (H2 : Punctual (say o w')) by (apply punctual_say; [exact H1|exact I])
  end.
  match goal with |- context [if ?c then _ else _] => destruct c end.
  - apply punctual_finish. apply punctual_say; [|exact I].
    revert H2. apply punctual_same; reflexivity.
  - unfold request. apply punctual_trigger_put.
    destruct H2 as [Ha Hb Hc]. constructor; cbn in *; auto.
    apply Forall_app. split; auto. constructor; [exact I|constructor].
Qed.

Lemma punctual_packet_granted x sv a w :
  Punctual w -> Punctual (packet_granted x sv a w).
Proof.
  intros H. unfold packet_granted. cbn [set_wait_times now say].
  match goal with |- context [timeout _ _ ?w'] =>
    assert (H1 : Punctual w' /\ now w' = now w /\
                 In (Waited (now w) x (now w - a)%float) (log w'))
  end.
  { split; [|split; [reflexivity|]].
    - apply (punctual_say _ (set_wait_times _ w)); [|exact I].
      revert H. apply punctual_same; reflexivity.
    - cbn. apply in_or_app. right. left. reflexivity. }
  destruct H1 as [H1 [Hnow Hin]].
  unfold timeout. destruct (sv <? 0)%float.
  - apply punctual_fail, punctual_release. exact H1.
  - apply punctual_schedule; [exact H1|].
    unfold due_event. cbn [snd fst frame]. rewrite Hnow.
    exists (now w), (now w - a)%float. split; [exact Hin|reflexivity].
Qed.

Lemma punctual_packet_served x sv a w :
  Punctual w -> due (log w) (now w) x sv ->
  Punctual (packet_served p x sv a w).
Proof.
  intros H Hd. unfold packet_served.
  destruct (trace p); [|apply punctual_finish, punctual_release; exact H].
  destruct (waiting w) as [|o occ];
    [apply punctual_fail, punctual_release; exact H|].
  apply punctual_finish, punctual_release. apply punctual_say.
  - revert H. apply punctual_same; reflexivity.
  - cbn. apply due_grow. exact Hd.
Qed.

Lemma punctual_source i w : Punctual w -> Punctual (source p i w).
Proof.
  intros H. unfold source.
  destruct (i <? number p); [|apply punctual_finish; exact H].
  destruct (mean_ia_time p =? 0)%float; [apply punctual_fail; exact H|].
  assert (Hany : forall r, Punctual (set_random r w))
    by (intros r; revert H; apply punctual_same; reflexivity).
  destruct (expovariate (1 / mean_ia_time p) (random w)) as [[ia|] r1];
    [|apply punctual_fail, Hany].
  cbn [set_random random].
  destruct (mean_srv_time p =? 0)%float; [apply punctual_fail, Hany|].
  destruct (expovariate (1 / mean_srv_time p) r1) as [[srv|] r2];
    [|apply punctual_fail; exact (Hany r2)].
  assert (Hpkt : Punctual (process (GPacket i srv)
                             (set_random r2 (set_random r1 w)))).
  { unfold process. apply punctual_schedule; [apply (Hany r2)|exact I]. }
  unfold timeout. destruct (ia <? 0)%float; [apply punctual_fail; exact Hpkt|].
  apply punctual_schedule; [exact Hpkt|exact I].
Qed.

Lemma punctual_step w :
  Punctual w ->
  match step p w with
  | EmptySchedule => True
  | Raise _ w' | Next w' => Punctual w'
  end.
Proof.
  intros H. unfold step.
  destruct (queue w) as [|[[[t pr] n] e] q] eqn:Hqueue; [exact I|].
  pose proof (punctual_queue _ H) as Hq. rewrite Hqueue in Hq.
  inversion Hq as [|? ? He Hrest]; subst.
  set (w0 := set_now t (set_queue q (eid w) w)).
  assert (H0 : Punctual w0).
  { destruct H as [_ Hp Hl]. constructor; cbn; auto. }
  assert (Hc : Punctual (callbacks p e w0)).
  { unfold due_event in He. cbn [snd fst] in He.
    destruct e as [g|g|g| |x]; cbn [callbacks frame] in *;
      try (destruct g; cbn [resume] in *;
           [apply punctual_source; exact H0
           |apply punctual_packet; exact H0
           |apply punctual_packet_granted; exact H0
           |apply punctual_packet_served; [exact H0|exact He]]).
    - apply punctual_trigger_put. exact H0.
    - exact H0. }
  destruct e as [| | | |[x|]]; exact Hc.
Qed.

Lemma punctual_after n w w' :
  Punctual w -> after p n w = Some w' -> Punctual w'.
Proof.
  revert w. induction n as [|n IH]; intros w H Ha; cbn [after] in Ha.
  - injection Ha as <-. exact H.
  - pose proof (punctual_step w H) as Hs.
    destruct (step p w); try discriminate. eauto.
Qed.

Lemma punctual_start s g : Punctual (start s g).
Proof.
  unfold start, process, schedule. constructor; cbn; auto.
  apply Forall_cons; [exact I|apply Forall_nil].
Qed.

End Service.

(** X6: a customer leaves the server exactly its service time after it was
    granted it.  In every state of every run, whatever the parameters, each
    departure the log reports is at the time of that customer's grant plus
    its service time, as floats add. *)
Theorem service_takes_service_time {R : Runtime} p s g steps w :
  after p steps (start s g) = Some w ->
  forall t x sv m,
    In (Served t x sv m) (log w) ->
    exists gt d, In (Waited gt x d) (log w) /\ t = (gt + sv)%float.
Proof.
  intros Ha t x sv m Hin.
  pose proof (punctual_after p steps _ w (punctual_start s g) Ha) as H.
  pose proof (punctual_log _ H) as Hl. rewrite Forall_forall in Hl.
  exact (Hl _ Hin).
Qed.

Lemma service_takes_service_time_witness :
  exists w,
    after (R := scripted five) (traced 1 1 2 5) 26
      (start (R := scripted five) 0 []) = Some w /\
    In (Served 110 1 100 1) (log w) /\
    exists gt d, In (Waited gt 1 d) (log w) /\ 110%float = (gt + 100)%float.
Proof.
  eexists. split; [vm_compute; reflexivity|].
  split; [do 10 right; left; reflexivity|].
  apply (service_takes_service_time (R := scripted five) (traced 1 1 2 5) 0 []
           26 _) with (m := 1);
    [vm_compute; reflexivity|do 10 right; left; reflexivity].
Defined.

(** ** First come, first served *)

(** The customers the admission check of line 41 let in, in the order in
    which they arrived. *)
Definition entered (K : Z) (l : list obs) : list Z :=
  flat_map (fun o => match o with
                     | Arrived _ x n => if n >? K then [] else [x]
                     | _ => []
                     end) l.

Lemma entered_app K l l' : entered K (l ++ l') = entered K l ++ entered K l'.
Proof. apply flat_map_app. Qed.

(** A list of names that counts as the single name [x] does is [[x]]. *)
Lemma tally_single x l : (forall sel, tally sel l = ind (sel x)) -> l = [x].
Proof.
  intros H. pose proof (H everyone) as He.
  rewrite tally_everyone, ind_everyone in He.
  destruct l as [|y [|z l]]; cbn [length] in He; try lia.
  specialize (H (Z.eqb x)). cbn [tally] in H. rewrite Z.eqb_refl in H.
  destruct (Z.eqb_spec x y) as [->|Hne]; [reflexivity|]. cbn [ind] in H. lia.
Qed.

Section Discipline.

Context {R : Runtime}.
Variable p : params.

Hypothesis Hia : (mean_ia_time p =? 0)%float = false.
Hypothesis Hsrv : (mean_srv_time p =? 0)%float = false.
Hypothesis Htrace : trace p = true.

(** The admitted customers are, in the order of their arrival: those that
    have been granted the server, those whose grant is pending ([H]), and
    those in the server's queue; the granted are the departed and those in
    service ([S]). *)
Definition Fifo (w : world) : Prop :=
  exists H S,
    entered (system_capacity p) (log w)
    = granted (log w) ++ H ++ map request_of (put_queue w) /\
    (forall sel, tally sel H = qsum (holding sel) (queue w)) /\
    granted (log w) = departed (log w) ++ S /\
    (forall sel, tally sel S = qsum (serving sel) (queue w)).

Definition in_line (g : gen) : Prop :=
  match g with
  | GPacketReq _ _ _ => True
  | _ => False
  end.

Lemma line_ok_in_line l q : Forall (line_ok p l) q -> Forall in_line q.
Proof. apply Forall_impl. intros [| | |]; cbn; auto. Qed.

Lemma fifo_same w w' :
  log w' = log w -> queue w' = queue w -> put_queue w' = put_queue w ->
  Fifo w -> Fifo w'.
Proof.
  intros Hl Hq Hp [H [S HF]]. exists H, S. rewrite Hl, Hq, Hp. exact HF.
Qed.

Lemma fifo_schedule e pr d w :
  (forall sel, holding sel e = 0) -> (forall sel, serving sel e = 0) ->
  Fifo w -> Fifo (schedule e pr d w).
Proof.
  intros Hh Hs [H [S [H1 [H2 [H3 H4]]]]]. exists H, S. unfold schedule.
  cbn [set_queue log queue put_queue].
  split; [exact H1|]. split; [|split; [exact H3|]];
    intros sel; rewrite qsum_heappush, ?Hh, ?Hs; auto.
Qed.

Lemma fifo_finish w : Fifo w -> Fifo (finish w).
Proof. apply fifo_schedule; reflexivity. Qed.

Lemma fifo_fail x w : Fifo w -> Fifo (fail x w).
Proof. apply fifo_schedule; reflexivity. Qed.

Lemma fifo_release x w : Fifo w -> Fifo (release x w).
Proof.
  intros H. unfold release. apply fifo_schedule; try reflexivity.
  revert H. apply fifo_same; reflexivity.
Qed.

(** A grant moves the head of the queue to the pending grants. *)
Lemma fifo_trigger_put w :
  Forall in_line (put_queue w) -> Fifo w -> Fifo (trigger_put w).
Proof.
  intros Hline HF. unfold trigger_put.
  destruct (put_queue w) as [|r rest] eqn:Hq; [exact HF|].
  destruct (Z.of_nat (length (users w)) <? 1); [|exact HF].
  inversion Hline as [|? ? Hr _]; subst.
  destruct r as [| |x s a|]; cbn [in_line] in Hr; try contradiction.
  destruct HF as [H [S [H1 [H2 [H3 H4]]]]]. rewrite Hq in H1.
  exists (H ++ [x]), S. unfold schedule.
  cbn [set_queue set_server log queue put_queue].
  split; [|split; [|split; [exact H3|]]].
  - rewrite H1. cbn [map request_of]. rewrite <- (app_assoc H). reflexivity.
  - intros sel. rewrite qsum_heappush, tally_app, H2.
    cbn [holding frame tally]. lia.
  - intros sel. rewrite qsum_heappush, H4. cbn [serving frame]. lia.
Qed.

Lemma fifo_source i w : Fifo w -> Fifo (source p i w).
Proof.
  intros H. unfold source.
  destruct (i <? number p); [|apply fifo_finish; exact H].
  destruct (mean_ia_time p =? 0)%float; [apply fifo_fail; exact H|].
  assert (Hany : forall r, Fifo (set_random r w))
    by (intros r; revert H; apply fifo_same; reflexivity).
  destruct (expovariate (1 / mean_ia_time p) (random w)) as [[ia|] r1];
    [|apply fifo_fail, Hany].
  cbn [set_random random].
  destruct (mean_srv_time p =? 0)%float; [apply fifo_fail, Hany|].
  destruct (expovariate (1 / mean_srv_time p) r1) as [[srv|] r2];
    [|apply fifo_fail; exact (Hany r2)].
  assert (Hpkt : Fifo (process (GPacket i srv)
                         (set_random r2 (set_random r1 w)))).
  { unfold process. apply fifo_schedule; try reflexivity. apply (Hany r2). }
  unfold timeout. destruct (ia <? 0)%float; [apply fifo_fail; exact Hpkt|].
  apply fifo_schedule; try reflexivity. exact Hpkt.
Qed.

(** An arrival is appended to the admitted customers and to the queue, or
    to neither. *)
Lemma fifo_packet x s w :
  Forall in_line (put_queue w) -> Fifo w -> Fifo (packet p x s w).
Proof.
  intros Hline [H [S [H1 [H2 [H3 H4]]]]]. unfold packet. rewrite Htrace.
  cbn [set_waiting say waiting now log].
  destruct (Z.of_nat (length (waiting w ++ [1])) >? system_capacity p) eqn:Hfull.
  - apply fifo_finish. exists H, S.
    cbn [set_waiting set_loss say log queue put_queue].
    rewrite !entered_app, !granted_app, !departed_app.
    cbn [entered granted departed flat_map app]. rewrite Hfull, !app_nil_r.
    auto.
  - unfold request. apply fifo_trigger_put.
    + cbn [set_server set_waiting say put_queue].
      apply Forall_app. split; [exact Hline|].
      apply Forall_cons; [exact I|apply Forall_nil].
    + exists H, S. cbn [set_server set_waiting say log queue put_queue].
      rewrite !entered_app, !granted_app, !departed_app.
      cbn [entered granted departed flat_map app]. rewrite Hfull, !app_nil_r.
      split; [|auto]. rewrite H1, map_app, !app_assoc. reflexivity.
Qed.

(** The customer that is granted the server is the one whose grant was
    pending: it becomes the customer in service. *)
Lemma fifo_packet_granted x s a w :
  (s <? 0)%float = false ->
  entered (system_capacity p) (log w)
  = granted (log w) ++ [x] ++ map request_of (put_queue w) ->
  (forall sel, qsum (holding sel) (queue w) = 0) ->
  granted (log w) = departed (log w) ->
  (forall sel, qsum (serving sel) (queue w) = 0) ->
  Fifo (packet_granted x s a w).
Proof.
  intros Hs H1 H2 H3 H4. unfold packet_granted, timeout. rewrite Hs.
  exists [], [x]. unfold schedule.
  cbn [set_queue set_wait_times say log queue put_queue now eid].
  rewrite !entered_app, !granted_app, !departed_app.
  cbn [entered granted departed flat_map]. rewrite !app_nil_r.
  split; [|split; [|split]].
  - rewrite H1. cbn [app]. rewrite <- app_assoc. reflexivity.
  - intros sel. rewrite qsum_heappush, H2. reflexivity.
  - rewrite H3. reflexivity.
  - intros sel. rewrite qsum_heappush, H4. cbn [serving frame tally]. lia.
Qed.

(** The customer that departs is the one in service. *)
Lemma fifo_packet_served x s a w H :
  waiting w <> [] ->
  entered (system_capacity p) (log w)
  = granted (log w) ++ H ++ map request_of (put_queue w) ->
  (forall sel, tally sel H = qsum (holding sel) (queue w)) ->
  granted (log w) = departed (log w) ++ [x] ->
  (forall sel, qsum (serving sel) (queue w) = 0) ->
  Fifo (packet_served p x s a w).
Proof.
  intros Hw H1 H2 H3 H4. unfold packet_served. rewrite Htrace.
  destruct (waiting w) as [|o occ] eqn:Hocc; [congruence|].
  apply fifo_finish, fifo_release. exists H, [].
  cbn [set_waiting say log queue put_queue].
  rewrite !entered_app, !granted_app, !departed_app.
  cbn [entered granted departed flat_map]. rewrite !app_nil_r.
  split; [exact H1|]. split; [exact H2|]. split; [exact H3|].
  intros sel. rewrite H4. reflexivity.
Qed.

(** With the server held by one customer at most, the pending grants and
    the customers in service are those of the event that is processed. *)
Lemma fifo_step w :
  Inv p w -> Fifo w ->
  match step p w with
  | EmptySchedule => True
  | Raise _ w' | Next w' => Fifo w'
  end.
Proof.
  intros [Hc _] HF. unfold step.
  destruct (queue w) as [|[[[t pr] n] e] q] eqn:Hqueue; [exact I|].
  pose proof (inv_users _ _ Hc) as Hu. pose proof (inv_cap _ _ Hc) as Hcap.
  pose proof (inv_occ _ _ Hc) as Hocc.
  pose proof (inv_events _ _ Hc) as Hev.
  pose proof (line_ok_in_line _ _ (inv_put _ _ Hc)) as Hline.
  rewrite Hqueue in Hu, Hocc, Hev. cbn [qsum] in Hu, Hocc.
  inversion Hev as [|? ? He _]; subst. unfold event_ok in He. cbn [snd] in He.
  destruct HF as [H [S [H1 [H2 [H3 H4]]]]].
  rewrite Hqueue in H2, H4. cbn [qsum] in H2, H4.
  set (w0 := set_now t (set_queue q (eid w) w)).
  assert (H0 : (forall sel, holding sel e = 0) ->
               (forall sel, serving sel e = 0) -> Fifo w0).
  { intros Hh Hs. exists H, S. cbn [w0 set_now set_queue log queue put_queue].
    split; [exact H1|]. split; [|split; [exact H3|]];
      intros sel; rewrite ?H2, ?H4, ?Hh, ?Hs; reflexivity. }
  assert (Hc0 : Fifo (callbacks p e w0)).
  { pose proof (Hu everyone) as Hue. rewrite tally_everyone in Hue.
    pose proof (qsum_nonneg (holding everyone) q (holding_nonneg everyone)).
    pose proof (qsum_nonneg (serving everyone) q (serving_nonneg everyone)).
    assert (Hframe : forall g, frame e = Some g -> Fifo (resume p g w0)).
    { intros g Hg. rewrite Hg in He.
      assert (Hhe : forall sel, holding sel e
                = match g with GPacketReq x _ _ => ind (sel x) | _ => 0 end)
        by (intros sel; unfold holding; rewrite Hg; reflexivity).
      assert (Hse : forall sel, serving sel e
                = match g with GPacketSrv x _ _ => ind (sel x) | _ => 0 end)
        by (intros sel; unfold serving; rewrite Hg; reflexivity).
      destruct g as [i|x s|x s a|x s a]; cbn [resume].
      - apply fifo_source, H0; intros sel; rewrite ?Hhe, ?Hse; reflexivity.
      - apply fifo_packet; [exact Hline|].
        apply H0; intros sel; rewrite ?Hhe, ?Hse; reflexivity.
      - rewrite Hhe, Hse, ind_everyone in Hue.
        assert (HS : S = []).
        { apply tally_zero. rewrite H4, Hse. lia. }
        assert (HH : H = [x]).
        { apply tally_single. intros sel.
          assert (Hy : tally everyone H = 1) by (rewrite H2, Hhe, ind_everyone; lia).
          rewrite tally_everyone in Hy.
          destruct H as [|y [|z H]]; cbn [length] in Hy; try lia.
          pose proof (H2 (Z.eqb x)) as Hx. rewrite Hhe, Z.eqb_refl in Hx.
          cbn [tally] in Hx.
          pose proof (qsum_nonneg (holding (Z.eqb x)) q (holding_nonneg _)).
          destruct (Z.eqb_spec x y) as [->|Hne]; [|cbn [ind] in Hx; lia].
          cbn [tally]. lia. }
        subst H S. destruct He as [Hs _].
        apply fifo_packet_granted; cbn [w0 set_now set_queue log queue put_queue].
        + exact Hs.
        + exact H1.
        + intros sel. specialize (H2 sel). rewrite Hhe in H2.
          cbn [tally] in H2. lia.
        + rewrite H3. apply app_nil_r.
        + intros sel. specialize (H4 sel). rewrite Hse in H4.
          cbn [tally] in H4. lia.
      - rewrite Hhe, Hse, ind_everyone in Hue.
        rewrite Hhe, Hse, ind_everyone in Hocc.
        assert (HS : S = [x]).
        { apply tally_single. intros sel.
          assert (Hy : tally everyone S = 1) by (rewrite H4, Hse, ind_everyone; lia).
          rewrite tally_everyone in Hy.
          destruct S as [|y [|z S]]; cbn [length] in Hy; try lia.
          pose proof (H4 (Z.eqb x)) as Hx. rewrite Hse, Z.eqb_refl in Hx.
          cbn [tally] in Hx.
          pose proof (qsum_nonneg (serving (Z.eqb x)) q (serving_nonneg _)).
          destruct (Z.eqb_spec x y) as [->|Hne]; [|cbn [ind] in Hx; lia].
          cbn [tally]. lia. }
        subst S.
        apply (fifo_packet_served x s a w0 H);
          cbn [w0 set_now set_queue log queue put_queue waiting].
        + intros Hw. rewrite Hw in Hocc. cbn [length] in Hocc. lia.
        + exact H1.
        + intros sel. rewrite H2, Hhe. lia.
        + exact H3.
        + intros sel. specialize (H4 sel). rewrite Hse in H4.
          cbn [tally] in H4. lia. }
    destruct e as [g|g|g| |x]; cbn [callbacks];
      try (apply Hframe; reflexivity).
    - apply fifo_trigger_put; [exact Hline|]. apply H0; reflexivity.
    - apply H0; reflexivity. }
  destruct e as [| | | |[x|]]; exact Hc0.
Qed.

Lemma fifo_after n w w' :
  Inv p w -> Fifo w -> after p n w = Some w' -> Fifo w'.
Proof.
  revert w. induction n as [|n IH]; intros w Hi HF Ha; cbn [after] in Ha.
  - injection Ha as <-. exact HF.
  - pose proof (step_inv p Hia Hsrv Htrace w Hi) as Hs.
    pose proof (fifo_step w Hi HF) as Hf.
    destruct (step p w); try discriminate. eauto.
Qed.

Lemma fifo_run fuel w r :
  Inv p w -> Fifo w -> run p fuel w = Some r -> Fifo (snd r).
Proof.
  revert w. induction fuel as [|fuel IH]; intros w Hi HF Hr; cbn [run] in Hr;
    [discriminate|].
  pose proof (step_inv p Hia Hsrv Htrace w Hi) as Hs.
  pose proof (fifo_step w Hi HF) as Hf.
  destruct (step p w).
  - injection Hr as <-. exact HF.
  - contradiction.
  - eauto.
Qed.

Lemma fifo_start s g : Fifo (start s g).
Proof.
  exists [], []. unfold start, process, schedule.
  cbn [set_queue set_random log queue put_queue heappush qsum holding serving
       frame entered granted departed flat_map map app tally].
  repeat split; intros; lia.
Qed.

End Discipline.

(** X7: first come, first served.  At every state of a traced run with valid
    parameters the customers that were let in are, in the order of their
    arrival, those granted the server so far, then the one whose grant is
    pending, then those in the server's queue; and the granted are, in the
    same order, the departed and then the one in service.  Nobody overtakes:
    the server is granted in the order of arrival and left in that order. *)
Theorem first_come_first_served {R : Runtime} ia srv K n s g steps w :
  valid_run (traced ia srv K n) s = true ->
  after (traced ia srv K n) steps (start s g) = Some w ->
  exists H S,
    entered K (log w) = granted (log w) ++ H ++ map request_of (put_queue w) /\
    granted (log w) = departed (log w) ++ S /\
    (length H + length S <= 1)%nat.
Proof.
  intros Hv Ha. pose proof (reached_inv ia srv K n s g steps w Hv Ha) as Hi.
  apply valid_run_spec in Hv. destruct Hv as [H1 [H2 H3]].
  destruct (fifo_after (traced ia srv K n) H1 H2 eq_refl steps _ w
              (inv_start _ s g H3) (fifo_start _ s g) Ha)
    as [H [S [Ha1 [Ha2 [Ha3 Ha4]]]]].
  exists H, S. split; [exact Ha1|]. split; [exact Ha3|].
  destruct Hi as [Hc _].
  pose proof (inv_users _ _ Hc everyone) as Hu.
  pose proof (inv_cap _ _ Hc) as Hcap.
  rewrite <- Ha2, <- Ha4, !tally_everyone in Hu. lia.
Qed.

Lemma first_come_first_served_witness :
  exists w,
    after (R := scripted five) (traced 1 1 2 5) 9
      (start (R := scripted five) 0 []) = Some w /\
    exists H S,
      entered 2 (log w) = granted (log w) ++ H ++ map request_of (put_queue w) /\
      granted (log w) = departed (log w) ++ S /\
      (length H + length S <= 1)%nat.
Proof.
  eexists. split; [vm_compute; reflexivity|].
  apply (first_come_first_served (R := scripted five) 1 1 2 5 0 [] 9).
  - reflexivity.
  - vm_compute. reflexivity.
Defined.

(** X8: in a completed run with valid parameters and the trace flag on, the
    customers were granted the server, and left it, in the order in which
    they were let in: the three lists of names are the same list, so that
    the i-th wait time recorded is that of the i-th customer admitted. *)
Theorem served_in_arrival_order {R : Runtime} ia srv K n s g fuel :
  valid_run (traced ia srv K n) s = true -> enough fuel n ->
  exists w,
    run (traced ia srv K n) fuel (start s g) = Some (None, w) /\
    granted (log w) = entered K (log w) /\
    departed (log w) = entered K (log w) /\
    wait_times w = waits (log w).
Proof.
  intros Hv Hf.
  destruct (traced_run ia srv K n s g fuel Hv Hf) as [w [Hr [Hi [Hq _]]]].
  apply valid_run_spec in Hv. destruct Hv as [H1 [H2 H3]].
  pose proof (fifo_run (traced ia srv K n) H1 H2 eq_refl fuel _ _
                (inv_start _ s g H3) (fifo_start _ s g) Hr) as HF.
  cbn [snd] in HF. destruct HF as [H [S [Ha1 [Ha2 [Ha3 Ha4]]]]].
  destruct (ended _ w Hi Hq) as [_ [Hline _]].
  rewrite Hq in Ha2, Ha4. cbn [qsum] in Ha2, Ha4.
  rewrite (tally_zero H (Ha2 everyone)), Hline in Ha1.
  rewrite (tally_zero S (Ha4 everyone)) in Ha3.
  cbn [map app traced system_capacity] in Ha1. rewrite app_nil_r in Ha1, Ha3.
  exists w. split; [exact Hr|]. split; [congruence|]. split; [congruence|].
  destruct Hi as [Hc _]. exact (inv_times _ _ Hc).
Qed.

Lemma served_in_arrival_order_witness :
  exists w,
    run (R := scripted five) (traced 1 1 2 5) 40
      (start (R := scripted five) 0 []) = Some (None, w) /\
    granted (log w) = entered 2 (log w) /\
    departed (log w) = entered 2 (log w) /\
    wait_times w = waits (log w).
Proof.
  apply (served_in_arrival_order (R := scripted five) 1 1 2 5 0 [] 40).
  - reflexivity.
  - unfold enough. simpl. lia.
Defined.

(** ** An arrival at an empty system is served at once *)

(** For a time [a] that is a number, the wait of a grant at [a + 0] is 0:
    what [env.now - arrv_time] of line 48 gives when the request was granted
    by the zero-delay event of the arrival itself. *)
Lemma wait_at_arrival a : is_finite a = true -> (a + 0 - a)%float = 0%float.
Proof.
  unfold is_finite, is_nan, is_infinity. rewrite !eqb_spec, abs_spec.
  intros Hf. apply Prim2SF_inj. rewrite sub_spec, add_spec.
  change (Prim2SF 0) with (S754_zero false).
  change (Prim2SF infinity) with (S754_infinity false) in Hf.
  destruct (Prim2SF a) as [sg|sg| |sg m e].
  - destruct sg; reflexivity.
  - destruct sg; discriminate.
  - discriminate.
  - unfold SF64add, SF64sub. cbn [SFadd]. unfold SFsub.
    rewrite Z.sub_diag. reflexivity.
Qed.

(** A customer is named in one arrival entry of the log at most. *)
Lemma arrived_named l a x n :
  In (Arrived a x n) l -> 1 <= tally (Z.eqb x) (arrived l).
Proof.
  induction l as [|o l IH]; [contradiction|]. intros [->|Hin].
  - cbn [arrived flat_map app tally]. fold (arrived l). rewrite Z.eqb_refl.
    pose proof (tally_nonneg (Z.eqb x) (arrived l)). cbn [ind]. lia.
  - specialize (IH Hin). destruct o; cbn [arrived flat_map app tally];
      fold (arrived l); auto.
    pose proof (ind_nonneg (x =? name)). lia.
Qed.

Lemma arrived_once l x a n a' n' :
  tally (Z.eqb x) (arrived l) <= 1 ->
  In (Arrived a x n) l -> In (Arrived a' x n') l -> a = a' /\ n = n'.
Proof.
  induction l as [|o l IH]; [contradiction|]. intros Hle H1 H2.
  assert (Hstep : tally (Z.eqb x) (arrived (o :: l))
                  = match o with Arrived _ y _ => ind (x =? y) | _ => 0 end
                    + tally (Z.eqb x) (arrived l))
    by (destruct o; reflexivity).
  rewrite Hstep in Hle. clear Hstep.
  destruct H1 as [->|H1], H2 as [H2|H2].
  - injection H2 as <- <-. auto.
  - apply arrived_named in H2. rewrite Z.eqb_refl in Hle. cbn [ind] in Hle. lia.
  - subst o. apply arrived_named in H1. rewrite Z.eqb_refl in Hle.
    cbn [ind] in Hle. lia.
  - apply IH; auto.
    assert (0 <= match o with Arrived _ y _ => ind (x =? y) | _ => 0 end)
      by (destruct o; try lia; apply ind_nonneg).
    lia.
Qed.

Section Prompt.

Context {R : Runtime}.
Variable p : params.

Hypothesis Hia : (mean_ia_time p =? 0)%float = false.
Hypothesis Hsrv : (mean_srv_time p =? 0)%float = false.
Hypothesis Htrace : trace p = true.

(** A pending grant of a customer that arrived alone is due at its arrival
    time, after the zero delay of the request event; a customer in the
    server's queue did not arrive alone. *)
Definition prompt_event (l : list obs) (ke : key * event) : Prop :=
  match frame (snd ke) with
  | Some (GPacketReq x _ a) =>
      exists n, In (Arrived a x n) l /\
                (n = 1 -> fst (fst (fst ke)) = (a + 0)%float)
  | _ => True
  end.

Definition prompt_line (l : list obs) (g : gen) : Prop :=
  match g with
  | GPacketReq x _ a => exists n, In (Arrived a x n) l /\ 2 <= n
  | _ => True
  end.

Definition prompt_entry (l : list obs) (o : obs) : Prop :=
  match o with
  | Waited t x d =>
      exists a n, In (Arrived a x n) l /\ d = (t - a)%float /\
                  (n = 1 -> t = (a + 0)%float)
  | _ => True
  end.

Record Prompt (w : world) : Prop := {
  prompt_queue : Forall (prompt_event (log w)) (queue w);
  prompt_put : Forall (prompt_line (log w)) (put_queue w);
  prompt_log : Forall (prompt_entry (log w)) (log w)
}.

Lemma prompt_event_grow l o ke :
  prompt_event l ke -> prompt_event (l ++ [o]) ke.
Proof.
  unfold prompt_event. destruct (frame (snd ke)) as [[]|]; auto.
  intros [n [Hin Hn]]. exists n. split; [|exact Hn].
  apply in_or_app. left. exact Hin.
Qed.

Lemma prompt_line_grow l o g : prompt_line l g -> prompt_line (l ++ [o]) g.
Proof.
  destruct g; cbn [prompt_line]; auto.
  intros [n [Hin Hn]]. exists n. split; [|exact Hn].
  apply in_or_app. left. exact Hin.
Qed.

Lemma prompt_entry_grow l o o' : prompt_entry l o' -> prompt_entry (l ++ [o]) o'.
Proof.
  destruct o'; cbn [prompt_entry]; auto.
  intros [a [n [Hin Hn]]]. exists a, n. split; [|exact Hn].
  apply in_or_app. left. exact Hin.
Qed.

Lemma prompt_same w w' :
  log w' = log w -> queue w' = queue w -> put_queue w' = put_queue w ->
  Prompt w -> Prompt w'.
Proof.
  intros Hl Hq Hp [H1 H2 H3]. constructor; rewrite ?Hl, ?Hq, ?Hp; auto.
Qed.

Lemma prompt_schedule e pr d w :
  Prompt w -> prompt_event (log w) ((now w + d)%float, pr, eid w, e) ->
  Prompt (schedule e pr d w).
Proof.
  intros [H1 H2 H3] He. unfold schedule. constructor; cbn; auto.
  apply Forall_heappush; auto.
Qed.

Lemma prompt_finish w : Prompt w -> Prompt (finish w).
Proof. intros H. apply prompt_schedule; [exact H|exact I]. Qed.

Lemma prompt_fail x w : Prompt w -> Prompt (fail x w).
Proof. intros H. apply prompt_schedule; [exact H|exact I]. Qed.

Lemma prompt_say o w :
  Prompt w -> prompt_entry (log w ++ [o]) o -> Prompt (say o w).
Proof.
  intros [H1 H2 H3] Ho. constructor; cbn [say queue put_queue log].
  - revert H1. apply Forall_impl. intros ke. apply prompt_event_grow.
  - revert H2. apply Forall_impl. intros g. apply prompt_line_grow.
  - apply Forall_app. split; [|apply Forall_cons; [exact Ho|apply Forall_nil]].
    revert H3. apply Forall_impl. intros o'. apply prompt_entry_grow.
Qed.

Lemma prompt_release x w : Prompt w -> Prompt (release x w).
Proof.
  intros H. unfold release. apply prompt_schedule; [|exact I].
  revert H. apply prompt_same; reflexivity.
Qed.

(** The head of the queue, when it is granted the server, did not arrive
    alone. *)
Lemma prompt_trigger_put w : Prompt w -> Prompt (trigger_put w).
Proof.
  intros H. unfold trigger_put.
  destruct (put_queue w) as [|r rest] eqn:Hline; [exact H|].
  destruct (Z.of_nat (length (users w)) <? 1); [|exact H].
  pose proof (prompt_put _ H) as Hp. rewrite Hline in Hp.
  inversion Hp as [|? ? Hr Hrest]; subst.
  apply prompt_schedule.
  - destruct H as [H1 H2 H3]. constructor; cbn; auto.
  - unfold prompt_event. cbn [snd frame set_server log].
    destruct r as [| |x s a|]; auto. destruct Hr as [n [Hin Hn]].
    exists n. split; [exact Hin|]. intros ->. lia.
Qed.

Lemma prompt_source i w : Prompt w -> Prompt (source p i w).
Proof.
  intros H. unfold source.
  destruct (i <? number p); [|apply prompt_finish; exact H].
  destruct (mean_ia_time p =? 0)%float; [apply prompt_fail; exact H|].
  assert (Hany : forall r, Prompt (set_random r w))
    by (intros r; revert H; apply prompt_same; reflexivity).
  destruct (expovariate (1 / mean_ia_time p) (random w)) as [[ia|] r1];
    [|apply prompt_fail, Hany].
  cbn [set_random random].
  destruct (mean_srv_time p =? 0)%float; [apply prompt_fail, Hany|].
  destruct (expovariate (1 / mean_srv_time p) r1) as [[srv|] r2];
    [|apply prompt_fail; exact (Hany r2)].
  assert (Hpkt : Prompt (process (GPacket i srv)
                           (set_random r2 (set_random r1 w)))).
  { unfold process. apply prompt_schedule; [apply (Hany r2)|exact I]. }
  unfold timeout. destruct (ia <? 0)%float; [apply prompt_fail; exact Hpkt|].
  apply prompt_schedule; [exact Hpkt|exact I].
Qed.

(** A customer that finds nobody in the system finds the server free and
    its queue empty: its request is granted by an event at the time of the
    arrival, delayed by 0. *)
Lemma prompt_packet x s w :
  (waiting w = [] -> put_queue w = [] /\ users w = []) ->
  Prompt w -> Prompt (packet p x s w).
Proof.
  intros Hfree H. unfold packet. rewrite Htrace.
  cbn [set_waiting say waiting now log].
  set (n := Z.of_nat (length (waiting w ++ [1]))).
  assert (H1 : Prompt (say (Arrived (now w) x n)
                         (set_waiting (waiting w ++ [1]) w))).
  { apply prompt_say; [|exact I]. revert H. apply prompt_same; reflexivity. }
  destruct (n >? system_capacity p).
  - apply prompt_finish. apply prompt_say; [|exact I].
    revert H1. apply prompt_same; reflexivity.
  - assert (Hin : In (Arrived (now w) x n) (log w ++ [Arrived (now w) x n]))
      by (apply in_or_app; right; left; reflexivity).
    destruct (waiting w) as [|o occ] eqn:Hocc.
    + destruct (Hfree eq_refl) as [Hline Husers].
      unfold request, trigger_put.
      cbn [set_server set_waiting say users put_queue]. rewrite Hline, Husers.
      cbn [app length]. change (Z.of_nat 0 <? 1) with true. cbv iota.
      apply prompt_schedule.
      * destruct H1 as [Ha Hb Hc].
        constructor; cbn [set_server set_waiting say queue put_queue log] in *;
          auto.
      * unfold prompt_event.
        cbn [snd fst frame set_server set_waiting say log now].
        exists n. split; [exact Hin|]. intros _. reflexivity.
    + unfold request. apply prompt_trigger_put.
      destruct H1 as [Ha Hb Hc].
      constructor; cbn [set_server set_waiting say queue put_queue log] in *;
        auto.
      apply Forall_app. split; [exact Hb|].
      apply Forall_cons; [|apply Forall_nil]. cbn [prompt_line].
      exists n. split; [exact Hin|]. unfold n.
      rewrite length_app. cbn [length]. lia.
Qed.

Lemma prompt_packet_granted x s a w :
  Prompt w ->
  (exists n, In (Arrived a x n) (log w) /\ (n = 1 -> now w = (a + 0)%float)) ->
  Prompt (packet_granted x s a w).
Proof.
  intros H [n [Hin Hn]]. unfold packet_granted. cbn [set_wait_times now say].
  match goal with |- context [timeout _ _ ?w'] =>
    assert (H1 : Prompt w')
  end.
  { apply (prompt_say _ (set_wait_times _ w)).
    - revert H. apply prompt_same; reflexivity.
    - cbn [prompt_entry set_wait_times log]. exists a, n.
      split; [apply in_or_app; left; exact Hin|]. split; [reflexivity|exact Hn]. }
  unfold timeout. destruct (s <? 0)%float.
  - apply prompt_fail, prompt_release. exact H1.
  - apply prompt_schedule; [exact H1|exact I].
Qed.

Lemma prompt_packet_served x s a w :
  Prompt w -> Prompt (packet_served p x s a w).
Proof.
  intros H. unfold packet_served.
  destruct (trace p); [|apply prompt_finish, prompt_release; exact H].
  destruct (waiting w) as [|o occ];
    [apply prompt_fail, prompt_release; exact H|].
  apply prompt_finish, prompt_release. apply prompt_say; [|exact I].
  revert H. apply prompt_same; reflexivity.
Qed.

Lemma prompt_step w :
  Inv p w -> Prompt w ->
  match step p w with
  | EmptySchedule => True
  | Raise _ w' | Next w' => Prompt w'
  end.
Proof.
  intros [Hc _] H. unfold step.
  destruct (queue w) as [|[[[t pr] n] e] q] eqn:Hqueue; [exact I|].
  pose proof (prompt_queue _ H) as Hq. rewrite Hqueue in Hq.
  inversion Hq as [|? ? He Hrest]; subst.
  assert (Hfree : waiting w = [] -> put_queue w = [] /\ users w = []).
  { intros Hw. pose proof (inv_occ _ _ Hc) as Hocc.
    pose proof (inv_users _ _ Hc everyone) as Hu.
    rewrite tally_everyone in Hu. rewrite Hw in Hocc. cbn [length] in Hocc.
    pose proof (qsum_nonneg (holding everyone) (queue w) (holding_nonneg _)).
    pose proof (qsum_nonneg (serving everyone) (queue w) (serving_nonneg _)).
    split; [destruct (put_queue w)|destruct (users w)];
      cbn [length] in *; try reflexivity; lia. }
  set (w0 := set_now t (set_queue q (eid w) w)).
  assert (H0 : Prompt w0).
  { destruct H as [_ Hp Hl]. constructor; cbn; auto. }
  assert (Hc0 : Prompt (callbacks p e w0)).
  { unfold prompt_event in He. cbn [snd fst] in He.
    destruct e as [g|g|g| |x]; cbn [callbacks frame] in *;
      try (destruct g; cbn [resume] in *;
           [apply prompt_source; exact H0
           |apply prompt_packet; [exact Hfree|exact H0]
           |apply prompt_packet_granted; [exact H0|exact He]
           |apply prompt_packet_served; exact H0]).
    - apply prompt_trigger_put. exact H0.
    - exact H0. }
  destruct e as [| | | |[x|]]; exact Hc0.
Qed.

Lemma prompt_after n w w' :
  Inv p w -> Prompt w -> after p n w = Some w' -> Prompt w'.
Proof.
  revert w. induction n as [|n IH]; intros w Hi H Ha; cbn [after] in Ha.
  - injection Ha as <-. exact H.
  - pose proof (step_inv p Hia Hsrv Htrace w Hi) as Hs.
    pose proof (prompt_step w Hi H) as Hp.
    destruct (step p w); try discriminate. eauto.
Qed.

Lemma prompt_start s g : Prompt (start s g).
Proof.
  unfold start, process, schedule. constructor; cbn; auto.
  apply Forall_cons; [exact I|apply Forall_nil].
Qed.

(** No name is logged as arrived twice. *)
Lemma arrives_once w x :
  Inv p w -> tally (Z.eqb x) (arrived (log w)) <= 1.
Proof.
  intros [Hc _]. pose proof (inv_born _ _ Hc (Z.eqb x)) as Hb.
  rewrite span_one in Hb.
  pose proof (qsum_nonneg (starting (Z.eqb x)) (queue w) (starting_nonneg _)).
  pose proof (qsum_nonneg (unborn p (Z.eqb x)) (queue w) (unborn_nonneg p _)).
  pose proof (ind_nonneg ((0 <=? x) && (x <? 0 + Z.of_nat (Z.to_nat (number p))))).
  lia.
Qed.

End Prompt.

(** X9: a customer that arrives at an empty system does not wait.  When
    the log of a traced run has customer [x] arrive at time [a] as the only
    one in the system, the server is granted to [x] at [a + 0] (the delay of
    the request event), and the wait time recorded for [x] is
    [(a + 0) - a]: 0, for every time that is a number. *)
Theorem arrival_at_empty_system_waits_zero {R : Runtime}
  ia srv K n s g steps w a x t d :
  valid_run (traced ia srv K n) s = true ->
  after (traced ia srv K n) steps (start s g) = Some w ->
  In (Arrived a x 1) (log w) -> In (Waited t x d) (log w) ->
  t = (a + 0)%float /\ d = (a + 0 - a)%float /\
  (is_finite a = true -> d = 0%float).
Proof.
  intros Hv Ha Harr Hwait.
  pose proof (reached_inv ia srv K n s g steps w Hv Ha) as Hi.
  apply valid_run_spec in Hv. destruct Hv as [H1 [H2 H3]].
  pose proof (prompt_after (traced ia srv K n) H1 H2 eq_refl steps _ w
                (inv_start _ s g H3) (prompt_start s g) Ha) as Hp.
  pose proof (prompt_log _ Hp) as Hl. rewrite Forall_forall in Hl.
  destruct (Hl _ Hwait) as [a' [n' [Hin [Hd Hn]]]].
  destruct (arrived_once (log w) x a 1 a' n'
              (arrives_once (traced ia srv K n) w x Hi) Harr Hin) as [<- <-].
  specialize (Hn eq_refl). subst t d.
  split; [reflexivity|]. split; [reflexivity|]. apply wait_at_arrival.
Qed.

Lemma arrival_at_empty_system_waits_zero_witness :
  exists w,
    after (R := scripted five) (traced 1 1 1 5) 14
      (start (R := scripted five) 0 []) = Some w /\
    In (Arrived 11 2 1) (log w) /\ In (Waited 11 2 0) (log w) /\
    11%float = (11 + 0)%float /\ 0%float = (11 + 0 - 11)%float /\
    (is_finite 11 = true -> 0%float = 0%float).
Proof.
  eexists. split; [vm_compute; reflexivity|].
  split; [do 5 right; left; reflexivity|].
  split; [do 6 right; left; reflexivity|].
  eapply (arrival_at_empty_system_waits_zero (R := scripted five)
            1 1 1 5 0 [] 14).
  - reflexivity.
  - vm_compute. reflexivity.
  - do 5 right; left; reflexivity.
  - do 6 right; left; reflexivity.
Defined.

(** ** The sweep of the main program

    Lines 119-127 and 146-156 of the script: for each capacity of [k_list]
    and each arrival rate of [lmd_list] one simulation is run and its loss
    count divided by the number of packets.  The theoretical curve (lines
    129-144) and the plots are no part of the model; neither is what is
    printed. *)

(** [float(z)]: the nearest binary64 number, ties to even. *)
Definition float_of_int (z : Z) : float :=
  SF2Prim (binary_normalize prec emax z 0 false).

(** Python 3's [a / b] on two ints: [ZeroDivisionError] on a zero divisor,
    else the quotient rounded once; that is the quotient of the two
    conversions when these are exact, as they are for operands below
    2^53. *)
Definition true_div (a b : Z) : exn + float :=
  if b =? 0 then inl ZeroDivisionError
  else inr (float_of_int a / float_of_int b)%float.

Definition miu : Z := 100.

Definition k_list : list Z := [10; 20; 50].

(** Lines 122-127: [lmd] starts at 0 and is raised by 5 before it is
    appended, [n] times. *)
Fixpoint rates (n : nat) (lmd : Z) : list Z :=
  match n with
  | O => []
  | S n' => let lmd := lmd + 5 in lmd :: rates n' lmd
  end.

Definition lmd_list : list Z := rates 19 0.

Section Main.

Context {R : Runtime}.

(** A computation of the script: it reads and leaves a state of the
    generator of [random], and returns a value or raises; [None] when a run
    was given too little fuel. *)
Definition M (A : Type) : Type := rng -> option ((exn + A) * rng).

Definition ret {A} (a : A) : M A := fun g => Some (inr a, g).

Definition raise {A} (x : exn) : M A := fun g => Some (inl x, g).

Definition bind {A B} (m : M A) (f : A -> M B) : M B :=
  fun g =>
    match m g with
    | None => None
    | Some (inl x, g') => Some (inl x, g')
    | Some (inr a, g') => f a g'
    end.

#[local] Notation "x <- m ;; f" := (bind m (fun x => f))
  (at level 61, m at next level, right associativity).

Definition lift {A} (r : exn + A) : M A :=
  match r with
  | inl x => raise x
  | inr a => ret a
  end.

(** The call of line 152. *)
Definition simulate (fuel : nat) (ia srv : float) (k n s : Z) (t : bool)
  : M (float * Z) :=
  fun g =>
    match run_simulation fuel ia srv k n s t g with
    | None => None
    | Some (Raised x, g') => Some (inl x, g')
    | Some (Returned m l, g') => Some (inr (m, l), g')
    end.

(** Lines 149-153: one point of the simulated curve. *)
Definition point (fuel : nat) (k lmd num_packets random_seed : Z)
  (trace : bool) : M float :=
  ia <- lift (true_div 1 lmd) ;;
  srv <- lift (true_div 1 miu) ;;
  r <- simulate fuel ia srv k num_packets random_seed trace ;;
  lift (true_div (snd r) num_packets).

(** A [for] loop that appends one result per element. *)
Fixpoint for_each {A B} (f : A -> M B) (l : list A) : M (list B) :=
  match l with
  | [] => ret []
  | a :: l' => b <- f a ;; bs <- for_each f l' ;; ret (b :: bs)
  end.

(** Lines 146-156: [PB_sim_matrix]. *)
Definition sweep (fuel : nat) (num_packets random_seed : Z) (trace : bool)
  : M (list (list float)) :=
  for_each
    (fun k =>
       for_each (fun lmd => point fuel k lmd num_packets random_seed trace)
         lmd_list)
    k_list.

(** A loop whose first iteration raises raises. *)
Lemma for_each_raises {A B} (f : A -> M B) a l x g g' :
  f a g = Some (inl x, g') -> for_each f (a :: l) g = Some (inl x, g').
Proof. intros H. cbn [for_each]. unfold bind. rewrite H. reflexivity. Qed.

(** A loop whose iterations all return returns their results in order. *)
Lemma for_each_returns {A B} (f : A -> M B) (h : A -> B) l :
  (forall a g, In a l -> exists g', f a g = Some (inr (h a), g')) ->
  forall g, exists g', for_each f l g = Some (inr (map h l), g').
Proof.
  induction l as [|a l IH]; intros H g; [exists g; reflexivity|].
  destruct (H a g (or_introl eq_refl)) as [g1 H1].
  destruct (IH (fun a' g' Hin => H a' g' (or_intror Hin)) g1) as [g2 H2].
  exists g2. cbn [for_each map]. unfold bind. rewrite H1, H2. reflexivity.
Qed.

(** With no customer to generate the source ends at once, whatever the
    other parameters are. *)
Lemma no_customers fuel ia srv K n s t g :
  n <= 0 -> (3 <= fuel)%nat ->
  run_simulation fuel ia srv K n s t g = Some (Returned nan 0, seed s).
Proof.
  intros Hn Hf. destruct fuel as [|[|[|fuel]]]; try lia.
  assert (Hlt : (0 <? n) = false) by (apply Z.ltb_ge; exact Hn).
  unfold run_simulation, start, process, schedule.
  cbn [run step set_random set_queue set_now queue eid now heappush
       callbacks resume random].
  unfold source. cbn [number]. rewrite Hlt. unfold finish, schedule.
  cbn [run step set_random set_queue set_now queue eid now heappush
       callbacks resume random outcome_of fst snd wait_times loss length].
  rewrite np_mean_nil. reflexivity.
Qed.

Lemma in_rates x n lmd : In x (rates n lmd) -> lmd < x.
Proof.
  revert lmd. induction n as [|n IH]; intros lmd; cbn [rates]; [contradiction|].
  intros [<-|Hin]; [lia|]. apply IH in Hin. lia.
Qed.

Lemma lmd_list_positive lmd : In lmd lmd_list -> 0 < lmd.
Proof. apply in_rates. Qed.

(** A traced run with valid parameters loses between none and all of its
    customers. *)
Lemma traced_loss_bounded ia srv K n s g fuel :
  valid_run (traced ia srv K n) s = true -> enough fuel n ->
  exists m l r,
    run_simulation fuel ia srv K n s true g = Some (Returned m l, r) /\
    0 <= l <= Z.max 0 n.
Proof.
  intros Hv Hf.
  destruct (traced_run ia srv K n s g fuel Hv Hf) as [w [_ [Hi [Hq Hsim]]]].
  exists (np_mean (wait_times w)), (Z.of_nat (length (loss w))), (random w).
  split; [exact Hsim|].
  destruct (ended _ w Hi Hq) as [_ [_ [_ [Harr [Hsplit _]]]]].
  destruct Hi as [Hc _]. pose proof (inv_loss _ _ Hc) as Hl.
  pose proof (Harr everyone) as Ha. pose proof (Hsplit everyone) as Hs.
  pose proof (tally_nonneg everyone (departed (log w))).
  rewrite span_everyone in Ha. cbn [traced number] in Ha. lia.
Qed.

End Main.

(** X10: with [-N 0] the script raises [ZeroDivisionError] at line 153.
    The first simulation (capacity 10, rate 5) has been run by then and has
    returned, with no customer, a loss count of 0; no other one is run,
    whatever the seed and the trace flag are, and the generator is left as
    that run seeded it. *)
Theorem sweep_of_no_packets_raises {R : Runtime} fuel s t g :
  (3 <= fuel)%nat ->
  sweep fuel 0 s t g = Some (inl ZeroDivisionError, seed s).
Proof.
  intros Hf. unfold sweep, k_list. apply for_each_raises.
  unfold lmd_list. cbn [rates]. apply for_each_raises.
  unfold point, bind, lift, simulate, true_div.
  change (0 + 5 =? 0) with false. change (miu =? 0) with false. cbv iota.
  unfold ret. rewrite (no_customers fuel _ _ 10 0 s t g (Z.le_refl 0) Hf).
  reflexivity.
Qed.

Lemma sweep_of_no_packets_raises_witness :
  sweep (R := scripted five) 40 0 0 true []
  = Some (inl ZeroDivisionError, five 0).
Proof.
  apply (sweep_of_no_packets_raises (R := scripted five) 40 0 true []). lia.
Defined.

(** The draws of one run of the sweep return, and the variates are not
    negative. *)
Definition rate_valid {R : Runtime} (n s : Z) (lmd : Z) : bool :=
  draws_ok (untraced (float_of_int 1 / float_of_int lmd)
                     (float_of_int 1 / float_of_int miu) 0 n)
    (Z.to_nat n) (seed s).

(** X11: with [--no-trace] every point of the simulated curve is
    [0 / num_packets], for every capacity and every arrival rate: the runs
    lose nobody because they admit nobody.  The variates of the 19 rates are
    taken to be non-negative and the number of packets is not 0. *)
Theorem untraced_sweep_reports_no_loss {R : Runtime} fuel n s g :
  n <> 0 -> enough fuel n ->
  forallb (rate_valid n s) lmd_list = true ->
  exists g',
    sweep fuel n s false g
    = Some (inr (map (fun _ => map (fun _ => (0 / float_of_int n)%float)
                                lmd_list) k_list), g').
Proof.
  intros Hn Hf Hv. rewrite forallb_forall in Hv.
  assert (Hpoint : forall k lmd g0, In lmd lmd_list ->
            exists g', point fuel k lmd n s false g0
                       = Some (inr (0 / float_of_int n)%float, g')).
  { intros k lmd g0 Hin. pose proof (lmd_list_positive lmd Hin) as Hpos.
    specialize (Hv lmd Hin). unfold rate_valid in Hv.
    assert (Hmeans : ((float_of_int 1 / float_of_int lmd =? 0)%float = false) /\
                     ((float_of_int 1 / float_of_int miu =? 0)%float = false)).
    { unfold lmd_list in Hin. cbn [rates In] in Hin.
      repeat (destruct Hin as [<-|Hin]; [split; vm_compute; reflexivity|]).
      contradiction. }
    destruct Hmeans as [Hm1 Hm2].
    assert (Hvalid : valid_run
                       (untraced (float_of_int 1 / float_of_int lmd)
                          (float_of_int 1 / float_of_int miu) k n) s = true).
    { unfold valid_run. cbn [untraced mean_ia_time mean_srv_time number].
      rewrite Hm1, Hm2. cbn [negb andb].
      rewrite <- Hv. apply draws_ok_means; reflexivity. }
    destruct (untraced_run _ _ k n s g0 fuel Hvalid Hf)
      as [w [_ [Hsim _]]].
    exists (random w). unfold point, bind, lift, simulate, true_div.
    destruct (Z.eqb_spec lmd 0) as [->|_]; [lia|].
    change (miu =? 0) with false. cbv iota. unfold ret. rewrite Hsim.
    cbn [snd]. destruct (Z.eqb_spec n 0) as [->|_]; [congruence|].
    reflexivity. }
  unfold sweep.
  apply (for_each_returns _
           (fun _ => map (fun _ => (0 / float_of_int n)%float) lmd_list)).
  intros k g0 _.
  apply (for_each_returns _ (fun _ => (0 / float_of_int n)%float)).
  intros lmd g1 Hin. apply Hpoint. exact Hin.
Qed.

Lemma untraced_sweep_reports_no_loss_witness :
  exists g',
    sweep (R := scripted five) 40 5 0 false []
    = Some (inr (map (fun _ => map (fun _ => (0 / float_of_int 5)%float)
                                lmd_list) k_list), g').
Proof.
  apply (untraced_sweep_reports_no_loss (R := scripted five) 40 5 0 []).
  - lia.
  - unfold enough. simpl. lia.
  - vm_compute. reflexivity.
Defined.

(** The loss count that the run of one point of the sweep returns (0 if it
    returns none). *)
Definition point_loss {R : Runtime} (fuel : nat) (k lmd n s : Z) : Z :=
  match
    run_simulation fuel (float_of_int 1 / float_of_int lmd)
      (float_of_int 1 / float_of_int miu) k n s true (seed s)
  with
  | Some (Returned _ l, _) => l
  | _ => 0
  end.

(** X12: with at least one packet and valid variates the sweep raises
    nothing: it yields 3 rows, one for each capacity of [k_list] in turn, of
    19 estimates each, one for each arrival rate of [lmd_list] in turn, and
    the estimate of capacity [k] and rate [lmd] is the loss count that
    [run_simulation] returns for the mean times [1 / lmd] and [1 / miu] and
    the capacity [k], whatever state the generator was in, over
    [num_packets]; that loss count is between 0 and [num_packets].  The
    number of packets is below 2^53, where the quotient of the two ints is
    that of their conversions. *)
Theorem traced_sweep_completes {R : Runtime} fuel n s g :
  1 <= n < 2 ^ 53 -> enough fuel n ->
  forallb (rate_valid n s) lmd_list = true ->
  (exists g',
     sweep fuel n s true g
     = Some (inr (map (fun k =>
                         map (fun lmd =>
                                (float_of_int (point_loss fuel k lmd n s)
                                 / float_of_int n)%float)
                           lmd_list)
                    k_list), g')) /\
  forall k lmd,
    In lmd lmd_list ->
    0 <= point_loss fuel k lmd n s <= n /\
    forall g0, exists m r,
      run_simulation fuel (float_of_int 1 / float_of_int lmd)
        (float_of_int 1 / float_of_int miu) k n s true g0
      = Some (Returned m (point_loss fuel k lmd n s), r).
Proof.
  intros Hn Hf Hv. rewrite forallb_forall in Hv.
  assert (Hrun : forall k lmd g0, In lmd lmd_list ->
            0 < lmd /\ 0 <= point_loss fuel k lmd n s <= n /\
            exists m r,
              run_simulation fuel (float_of_int 1 / float_of_int lmd)
                (float_of_int 1 / float_of_int miu) k n s true g0
              = Some (Returned m (point_loss fuel k lmd n s), r)).
  { intros k lmd g0 Hin. pose proof (lmd_list_positive lmd Hin) as Hpos.
    specialize (Hv lmd Hin). unfold rate_valid in Hv.
    assert (Hmeans : ((float_of_int 1 / float_of_int lmd =? 0)%float = false) /\
                     ((float_of_int 1 / float_of_int miu =? 0)%float = false)).
    { unfold lmd_list in Hin. cbn [rates In] in Hin.
      repeat (destruct Hin as [<-|Hin]; [split; vm_compute; reflexivity|]).
      contradiction. }
    destruct Hmeans as [Hm1 Hm2].
    assert (Hvalid : valid_run
                       (traced (float_of_int 1 / float_of_int lmd)
                          (float_of_int 1 / float_of_int miu) k n) s = true).
    { unfold valid_run. cbn [traced mean_ia_time mean_srv_time number].
      rewrite Hm1, Hm2. cbn [negb andb].
      rewrite <- Hv. apply draws_ok_means; reflexivity. }
    destruct (traced_loss_bounded _ _ k n s g0 fuel Hvalid Hf)
      as [m [l [r [Hsim Hl]]]].
    assert (Hpl : point_loss fuel k lmd n s = l).
    { unfold point_loss.
      change (run_simulation fuel (float_of_int 1 / float_of_int lmd)
                (float_of_int 1 / float_of_int miu) k n s true (seed s))
        with (run_simulation fuel (float_of_int 1 / float_of_int lmd)
                (float_of_int 1 / float_of_int miu) k n s true g0).
      rewrite Hsim. reflexivity. }
    rewrite Hpl. split; [exact Hpos|]. split; [lia|].
    exists m, r. exact Hsim. }
  split.
  - unfold sweep.
    apply (for_each_returns _
             (fun k => map (fun lmd =>
                              (float_of_int (point_loss fuel k lmd n s)
                               / float_of_int n)%float) lmd_list)).
    intros k g0 _.
    apply (for_each_returns _
             (fun lmd => (float_of_int (point_loss fuel k lmd n s)
                          / float_of_int n)%float)).
    intros lmd g1 Hin.
    destruct (Hrun k lmd g1 Hin) as [Hpos [_ [m [r Hsim]]]].
    exists r. unfold point, bind, lift, simulate, true_div.
    destruct (Z.eqb_spec lmd 0) as [->|_]; [lia|].
    change (miu =? 0) with false. cbv iota. unfold ret. rewrite Hsim.
    cbn [snd]. destruct (Z.eqb_spec n 0) as [->|_]; [lia|]. reflexivity.
  - intros k lmd Hin. split.
    + destruct (Hrun k lmd g Hin) as [_ [Hb _]]. exact Hb.
    + intros g0. destruct (Hrun k lmd g0 Hin) as [_ [_ Hsim]]. exact Hsim.
Qed.

(** Twelve customers that arrive together (every gap is 0) and need a
    service of 1 each: with a capacity of 10 the last two are lost. *)
Definition crowd (random_seed : Z) : list float :=
  concat (repeat [0; 1]%float 12).

Example crowd_losses :
  point_loss (R := scripted crowd) 100 10 5 12 0 = 2 /\
  point_loss (R := scripted crowd) 100 20 5 12 0 = 0 /\
  option_map (fun r => match fst r with
                       | inr PB_sim_matrix => map (hd 0%float) PB_sim_matrix
                       | inl _ => []
                       end)
    (sweep (R := scripted crowd) 100 12 0 true [])
  = Some [float_of_int 2 / float_of_int 12; 0; 0]%float.
Proof. repeat split; vm_compute; reflexivity. Qed.

Lemma traced_sweep_completes_witness :
  (exists g',
     sweep (R := scripted crowd) 100 12 0 true []
     = Some (inr (map (fun k =>
                         map (fun lmd =>
                                (float_of_int
                                   (point_loss (R := scripted crowd) 100 k lmd
                                      12 0)
                                 / float_of_int 12)%float)
                           lmd_list)
                    k_list), g')) /\
  forall k lmd,
    In lmd lmd_list ->
    0 <= point_loss (R := scripted crowd) 100 k lmd 12 0 <= 12 /\
    forall g0, exists m r,
      run_simulation (R := scripted crowd) 100
        (float_of_int 1 / float_of_int lmd)
        (float_of_int 1 / float_of_int miu) k 12 0 true g0
      = Some (Returned m (point_loss (R := scripted crowd) 100 k lmd 12 0), r).
Proof.
  apply (traced_sweep_completes (R := scripted crowd) 100 12 0 []).
  - lia.
  - unfold enough. simpl. lia.
  - vm_compute. reflexivity.
Defined.

(** X13: with room for one customer only, nobody queues.  At every state
    of a traced run with valid parameters and [system_capacity = 1] the
    server's queue is empty, and every customer that was granted the server
    had arrived as the only one in the system, at a time [a], was granted
    it at [a + 0] and has the wait time [(a + 0) - a] recorded. *)
Theorem capacity_one_never_queues {R : Runtime} ia srv n s g steps w :
  valid_run (traced ia srv 1 n) s = true ->
  after (traced ia srv 1 n) steps (start s g) = Some w ->
  put_queue w = [] /\
  forall t x d,
    In (Waited t x d) (log w) ->
    exists a, In (Arrived a x 1) (log w) /\
              t = (a + 0)%float /\ d = (a + 0 - a)%float.
Proof.
  intros Hv Ha.
  pose proof (reached_inv ia srv 1 n s g steps w Hv Ha) as Hi.
  apply valid_run_spec in Hv. destruct Hv as [H1 [H2 H3]].
  pose proof (prompt_after (traced ia srv 1 n) H1 H2 eq_refl steps _ w
                (inv_start _ s g H3) (prompt_start s g) Ha) as Hp.
  pose proof (fun x => arrives_once (traced ia srv 1 n) w x Hi) as Honce.
  destruct Hi as [Hc _].
  pose proof (inv_log _ _ Hc) as Hlog. rewrite Forall_forall in Hlog.
  split.
  - destruct (put_queue w) as [|r rest] eqn:Hline; [reflexivity|exfalso].
    pose proof (inv_put _ _ Hc) as Hput. pose proof (prompt_put _ Hp) as Hpp.
    rewrite Hline in Hput, Hpp.
    inversion Hput as [|? ? Hr _]; subst. inversion Hpp as [|? ? Hr' _]; subst.
    destruct r as [| |x sv a|]; cbn [line_ok] in Hr; try contradiction.
    destruct Hr as [_ [m [Hin Hm]]]. destruct Hr' as [m' [Hin' Hm']].
    destruct (arrived_once (log w) x a m a m' (Honce x) Hin Hin') as [_ <-].
    cbn [traced system_capacity] in Hm. lia.
  - intros t x d Hwait.
    pose proof (prompt_log _ Hp) as Hl. rewrite Forall_forall in Hl.
    destruct (Hl _ Hwait) as [a [m [Hin [Hd Hm]]]].
    destruct (Hlog _ Hwait) as [a' [m' [Hin' [Hle _]]]].
    pose proof (Hlog _ Hin) as Harr. cbn [entry_ok] in Harr.
    destruct (arrived_once (log w) x a m a' m' (Honce x) Hin Hin') as [<- <-].
    cbn [traced system_capacity] in Hle.
    assert (m = 1) by lia. subst m. specialize (Hm eq_refl). subst t d.
    exists a. split; [exact Hin|]. split; reflexivity.
Qed.

Lemma capacity_one_never_queues_witness :
  exists w,
    after (R := scripted five) (traced 1 1 1 5) 14
      (start (R := scripted five) 0 []) = Some w /\
    put_queue w = [] /\
    forall t x d,
      In (Waited t x d) (log w) ->
      exists a, In (Arrived a x 1) (log w) /\
                t = (a + 0)%float /\ d = (a + 0 - a)%float.
Proof.
  eexists. split; [vm_compute; reflexivity|].
  apply (capacity_one_never_queues (R := scripted five) 1 1 5 0 [] 14).
  - reflexivity.
  - vm_compute. reflexivity.
Defined.

(** ** Infinite mean times *)

(** The rate of an infinite mean time is zero, and the mean itself is not. *)
Lemma infinite_mean_rate m :
  is_infinity m = true ->
  (m =? 0)%float = false /\ (1 / m =? 0)%float = true.
Proof.
  unfold is_infinity. rewrite !eqb_spec, abs_spec, div_spec.
  change (Prim2SF 0) with (S754_zero false).
  change (Prim2SF infinity) with (S754_infinity false).
  change (Prim2SF 1) with (S754_finite false 4503599627370496 (-52)).
  destruct (Prim2SF m) as [sg|sg| |sg mm e].
  - cbn. discriminate.
  - intros _. destruct sg; split; reflexivity.
  - cbn. discriminate.
  - cbn [SFabs]. unfold SFeqb at 1. cbn [SFcompare]. discriminate.
Qed.

(** X14: a mean time of plus or minus infinity raises [ZeroDivisionError]
    inside [random.expovariate], in the first iteration of the source when
    there is a customer to generate, whatever the capacity, the seed and the
    trace flag are: the rate [1.0 / mean] is zero.  For the mean
    interarrival time this is at line 28, and the generator is left one
    call of [random()] past the seed; for the mean service time it is at
    line 29, after the gap has been drawn. *)
Theorem infinite_mean_raises {R : Runtime} ia srv K n s t g fuel :
  1 <= n -> (3 <= fuel)%nat ->
  (is_infinity ia = true ->
   run_simulation fuel ia srv K n s t g
   = Some (Raised ZeroDivisionError,
           snd (expovariate (1 / ia)%float (seed s)))) /\
  (forall ia_time r1,
     (ia =? 0)%float = false ->
     expovariate (1 / ia)%float (seed s) = (Some ia_time, r1) ->
     is_infinity srv = true ->
     run_simulation fuel ia srv K n s t g
     = Some (Raised ZeroDivisionError,
             snd (expovariate (1 / srv)%float r1))).
Proof.
  intros Hn Hf. destruct fuel as [|[|[|fuel]]]; try lia.
  assert (Hlt : (0 <? n) = true) by (apply Z.ltb_lt; lia).
  split.
  - intros Hinf. destruct (infinite_mean_rate ia Hinf) as [Hia Hrate].
    pose proof (proj2 (expovariate_raises (1 / ia) (seed s)) Hrate) as Hnone.
    unfold run_simulation, start, process, schedule.
    cbn [run step set_random set_queue set_now queue eid now heappush
         callbacks resume random].
    unfold source.
    cbn [number mean_ia_time mean_srv_time random set_random set_queue
         set_now].
    rewrite Hlt, Hia.
    destruct (expovariate (1 / ia) (seed s)) as [[x|] r1];
      cbn [fst] in Hnone; [discriminate|].
    unfold fail, schedule.
    cbn [run step set_random set_queue set_now queue eid now heappush
         callbacks resume random outcome_of fst snd wait_times loss length].
    reflexivity.
  - intros ia_time r1 Hia Hd1 Hinf.
    destruct (infinite_mean_rate srv Hinf) as [Hsrv Hrate].
    pose proof (proj2 (expovariate_raises (1 / srv) r1) Hrate) as Hnone.
    unfold run_simulation, start, process, schedule.
    cbn [run step set_random set_queue set_now queue eid now heappush
         callbacks resume random].
    unfold source.
    cbn [number mean_ia_time mean_srv_time random set_random set_queue
         set_now].
    rewrite Hlt, Hia, Hd1.
    cbn [number mean_ia_time mean_srv_time random set_random set_queue
         set_now].
    rewrite Hsrv.
    destruct (expovariate (1 / srv) r1) as [[x|] r2];
      cbn [fst] in Hnone; [discriminate|].
    unfold fail, schedule.
    cbn [run step set_random set_queue set_now queue eid now heappush
         callbacks resume random outcome_of fst snd wait_times loss length].
    reflexivity.
Qed.

Lemma infinite_mean_raises_witness :
  run_simulation (R := scripted five) 40 infinity 1 2 5 0 true []
  = Some (Raised ZeroDivisionError,
          snd (expovariate (Runtime := scripted five) (1 / infinity)%float
                 (five 0))) /\
  run_simulation (R := scripted five) 40 1 neg_infinity 2 5 0 true []
  = Some (Raised ZeroDivisionError,
          snd (expovariate (Runtime := scripted five)
                 (1 / neg_infinity)%float
                 [10; 10; 100; 1; 0.5; 1; 0.5; 1; 0.5]%float)).
Proof.
  split.
  - apply (infinite_mean_raises (R := scripted five) infinity 1 2 5 0 true []
             40); [lia|lia|reflexivity].
  - apply (infinite_mean_raises (R := scripted five) 1 neg_infinity 2 5 0
             true [] 40) with (ia_time := 1%float);
      [lia|lia|reflexivity|reflexivity|reflexivity].
Defined.
